(** * MapGuard: the interception layer and the mapping cache

    A shallow embedding of [src/src/mapguard.c] (with the macros of
    [src/include/mapguard.h]) and the properties of its four hooks
    [mmap], [munmap], [mprotect] and [mremap].

    Conventions.
    - Addresses ([void *]) and [size_t] values are 64-bit unsigned numbers,
      kept as [Z] with the wrap-around of pointer and [size_t] arithmetic
      written out ([wrap64]).  [NULL] is [0], [MAP_FAILED] is [(void * ) -1].
    - [int] values ([prot], [flags], [fd], return codes) are [Z]; the only
      operations the code applies to them are [&], [|] and comparisons.
    - The switches of [mapguard_policy_t] are [uint8_t] fields that the
      constructor sets to [1] or leaves at [0]; they are [bool] here.
    - The cache vector stores one pointer per heap record and every record is
      pointed to by one slot only, so the vector is a list of records; a
      [mapguard_cache_entry_t *] is the slot that holds the record ([nat]),
      [NULL] is [None], and a write through that pointer updates the slot
      in place.
    - The real primitives ([g_real_mmap] and friends) are function pointers
      resolved by [dlsym]: they are fields of [globals], and what they
      return may depend on every call made to them before.
    - [LOG] only formats telemetry and is left out. *)

From Stdlib Require Import ZArith Lia Bool List.
From Stdlib Require String.
Import (notations) Stdlib.Strings.String.
From stdpp Require Import base numbers list.

Local Open Scope Z_scope.

(** ** Constants of the platform headers (Linux, 64 bit) *)

Definition PROT_NONE : Z := 0.
Definition PROT_READ : Z := 1.
Definition PROT_WRITE : Z := 2.
Definition PROT_EXEC : Z := 4.
Definition MAP_PRIVATE : Z := 2.
Definition MAP_ANONYMOUS : Z := 32.
Definition EINVAL : Z := 22.

Definition wrap64 (z : Z) : Z := z mod 2 ^ 64.

Definition MAP_FAILED : Z := wrap64 (-1).

(** ** Constants of mapguard.h *)

Definition OK : Z := 0.
Definition ERROR : Z := -1.
Definition MG_POISON_BYTE : Z := 222.

(** ** Data model *)

Record mapguard_policy_t := {
  disallow_rwx : bool;
  disallow_transition_to_x : bool;
  disallow_transition_from_x : bool;
  disallow_static_address : bool;
  enable_guard_pages : bool;
  panic_on_violation : bool;
  poison_on_allocation : bool;
  use_mapping_cache : bool
}.

(** Modelled from the spec: the declaration of [mapguard_cache_entry_t]
    that mapguard.c is written against is missing: the header in
    src/include declares a later layout, with flags [guarded_b] and
    [guarded_t] where mapguard.c reads and writes the pointers
    [guard_bottom] and [guard_top].  The fields are those mapguard.c uses,
    with the spec's reading of the two guard fields: "optional addresses of
    the sentinel pages immediately before/after the range", [NULL] when
    there is none ([new_mapguard_cache_entry] zeroes the record, and the
    code tests [if(mce->guard_top)]). *)
Record mapguard_cache_entry_t := {
  start : Z;
  size : Z;
  guard_bottom : Z;
  guard_top : Z;
  immutable_prot : Z;
  current_prot : Z;
  cache_index : Z;
  xom_enabled : Z
}.

(** What the hooks do to the outside world, oldest first: every call of a
    real primitive with its result, and the poisoning [memset]. *)
Inductive event :=
| EvMmap (addr length prot flags fd offset result : Z)
| EvMunmap (addr length result : Z)
| EvMprotect (addr len prot result : Z)
| EvMremap (addr old_len new_len flags result : Z)
| EvMemset (p byte n : Z).

Record globals := {
  g_mapguard_policy : mapguard_policy_t;
  g_page_size : Z;
  g_real_mmap : list event -> Z -> Z -> Z -> Z -> Z -> Z -> Z;
  g_real_munmap : list event -> Z -> Z -> Z;
  g_real_mprotect : list event -> Z -> Z -> Z -> Z;
  g_real_mremap : list event -> Z -> Z -> Z -> Z -> Z;
  (* what a real primitive leaves in errno: history including the call,
     then the value before the call *)
  g_real_errno : list event -> Z -> Z
}.

Record mg_state := {
  g_map_cache_vector : list mapguard_cache_entry_t;
  errno : Z;
  effects : list event
}.

(** Field updates through a pointer to a record. *)
Definition set_start (v : Z) (e : mapguard_cache_entry_t) :=
  {| start := v; size := size e; guard_bottom := guard_bottom e;
     guard_top := guard_top e; immutable_prot := immutable_prot e;
     current_prot := current_prot e; cache_index := cache_index e;
     xom_enabled := xom_enabled e |}.
Definition set_size (v : Z) (e : mapguard_cache_entry_t) :=
  {| start := start e; size := v; guard_bottom := guard_bottom e;
     guard_top := guard_top e; immutable_prot := immutable_prot e;
     current_prot := current_prot e; cache_index := cache_index e;
     xom_enabled := xom_enabled e |}.
Definition set_guard_bottom (v : Z) (e : mapguard_cache_entry_t) :=
  {| start := start e; size := size e; guard_bottom := v;
     guard_top := guard_top e; immutable_prot := immutable_prot e;
     current_prot := current_prot e; cache_index := cache_index e;
     xom_enabled := xom_enabled e |}.
Definition set_guard_top (v : Z) (e : mapguard_cache_entry_t) :=
  {| start := start e; size := size e; guard_bottom := guard_bottom e;
     guard_top := v; immutable_prot := immutable_prot e;
     current_prot := current_prot e; cache_index := cache_index e;
     xom_enabled := xom_enabled e |}.
Definition set_immutable_prot (v : Z) (e : mapguard_cache_entry_t) :=
  {| start := start e; size := size e; guard_bottom := guard_bottom e;
     guard_top := guard_top e; immutable_prot := v;
     current_prot := current_prot e; cache_index := cache_index e;
     xom_enabled := xom_enabled e |}.
Definition set_current_prot (v : Z) (e : mapguard_cache_entry_t) :=
  {| start := start e; size := size e; guard_bottom := guard_bottom e;
     guard_top := guard_top e; immutable_prot := immutable_prot e;
     current_prot := v; cache_index := cache_index e;
     xom_enabled := xom_enabled e |}.
Definition set_cache_index (v : Z) (e : mapguard_cache_entry_t) :=
  {| start := start e; size := size e; guard_bottom := guard_bottom e;
     guard_top := guard_top e; immutable_prot := immutable_prot e;
     current_prot := current_prot e; cache_index := v;
     xom_enabled := xom_enabled e |}.

Definition with_vector (v : list mapguard_cache_entry_t) (s : mg_state) :=
  {| g_map_cache_vector := v; errno := errno s; effects := effects s |}.
Definition with_errno (n : Z) (s : mg_state) :=
  {| g_map_cache_vector := g_map_cache_vector s; errno := n;
     effects := effects s |}.

(** ** The monad of the hooks: state, and [abort()] *)

Inductive outcome (A : Type) :=
| Ret (a : A)
| Abort.
Arguments Ret {A} a.
Arguments Abort {A}.

Definition M (A : Type) : Type := mg_state -> outcome A * mg_state.

Definition ret {A} (a : A) : M A := fun s => (Ret a, s).

Definition bind {A B} (c : M A) (k : A -> M B) : M B :=
  fun s => match c s with
           | (Ret a, s') => k a s'
           | (Abort, s') => (Abort, s')
           end.

Definition abort {A} : M A := fun s => (Abort, s).

Notation "'let*' x ':=' c 'in' k" := (bind c (fun x => k))
  (at level 10, x name, c at level 100, k at level 200).
Notation "c >> k" := (bind c (fun _ => k))
  (at level 63, right associativity).

Definition when (b : bool) (c : M unit) : M unit := if b then c else ret tt.

(** [(prot & FLAG)] used as a condition. *)
Definition has_flag (prot flag : Z) : bool := negb (Z.land prot flag =? 0).

(** ** The vector container

    [vector_t] lives in [../vector_t/vector.h], outside the sources. *)

(** Modelled from the spec: [vector_push] of the missing vector_t library,
    "insert(record) -> index": the pointer goes to the end of the backing
    array and its position is returned. *)
Definition vector_push {A} (v : list A) (p : A) : list A * Z :=
  (v ++ [p], Z.of_nat (length v)).

(** Modelled from the spec: [vector_delete_at] of the missing vector_t
    library, "index-based delete" of "a generic dynamic array" with
    "compaction semantics": the slot is taken out and the later pointers
    move down by one.  The container is generic: it stores [void *] and
    cannot look into what it stores.  An index outside the array deletes
    nothing. *)
Definition vector_delete_at {A} (v : list A) (index : Z) : list A :=
  if (0 <=? index) && (index <? Z.of_nat (length v))
  then delete (Z.to_nat index) v
  else v.

(** Modelled from the spec: the other removal strategy the spec names for
    the missing vector_t library, "swap-with-last": the last pointer takes
    the place of the deleted one and the array shrinks by one. *)
Definition vector_delete_at_swap {A} (v : list A) (index : Z) : list A :=
  if (0 <=? index) && (index <? Z.of_nat (length v))
  then match last v with
       | Some x => take (length v - 1) (<[Z.to_nat index := x]> v)
       | None => v
       end
  else v.

(** Modelled from the spec: [vector_for_each] of the missing vector_t
    library, the "linear predicate search": the callback runs on the slots
    in order, and the first slot for which it returns non-NULL is the
    answer (the callback of mapguard.c returns the pointer it was given). *)
Fixpoint vector_for_each {A D} (fe : A -> D -> bool) (data : D)
    (v : list A) : option nat :=
  match v with
  | [] => None
  | p :: v' => if fe p data then Some 0%nat
               else S <$> vector_for_each fe data v'
  end.

(** ** mapguard.c *)

(** [malloc] followed by [memset(mce, 0, sizeof ...)]. *)
Definition new_mapguard_cache_entry : mapguard_cache_entry_t :=
  {| start := 0; size := 0; guard_bottom := 0; guard_top := 0;
     immutable_prot := 0; current_prot := 0; cache_index := 0;
     xom_enabled := 0 |}.

Definition get_base_page (g : globals) (addr : Z) : Z :=
  Z.land addr (wrap64 (Z.lnot (wrap64 (g_page_size g - 1)))).

Definition ROUND_UP_PAGE (g : globals) (N : Z) : Z :=
  wrap64 (wrap64 (wrap64 (N + g_page_size g) - 1) / g_page_size g
          * g_page_size g).

(** Returns non-NULL ([true]) when [data] is the start of the mapping or
    lies inside it. *)
Definition is_mapguard_entry_cached (mce : mapguard_cache_entry_t)
    (data : Z) : bool :=
  if start mce =? data then true
  else if (data >? start mce) && (wrap64 (start mce + size mce) >? data)
       then true
       else false.

(** Calls of the real primitives: the call is recorded and errno is
    whatever the primitive leaves there. *)
Definition call_real (g : globals) (mk : Z -> event)
    (f : list event -> Z) : M Z :=
  fun s =>
    let r := f (effects s) in
    let h := effects s ++ [mk r] in
    (Ret r, {| g_map_cache_vector := g_map_cache_vector s;
               errno := g_real_errno g h (errno s);
               effects := h |}).

Definition real_mmap (g : globals) (addr length prot flags fd offset : Z)
    : M Z :=
  call_real g (EvMmap addr length prot flags fd offset)
    (fun h => g_real_mmap g h addr length prot flags fd offset).

Definition real_munmap (g : globals) (addr length : Z) : M Z :=
  call_real g (EvMunmap addr length)
    (fun h => g_real_munmap g h addr length).

Definition real_mprotect (g : globals) (addr len prot : Z) : M Z :=
  call_real g (EvMprotect addr len prot)
    (fun h => g_real_mprotect g h addr len prot).

Definition real_mremap (g : globals) (addr old_len new_len flags : Z)
    : M Z :=
  call_real g (EvMremap addr old_len new_len flags)
    (fun h => g_real_mremap g h addr old_len new_len flags).

Definition memset (p byte n : Z) : M unit :=
  fun s => (Ret tt, {| g_map_cache_vector := g_map_cache_vector s;
                       errno := errno s;
                       effects := effects s ++ [EvMemset p byte n] |}).

Definition set_errno (n : Z) : M unit := fun s => (Ret tt, with_errno n s).

(** [MAYBE_PANIC]: [if(g_mapguard_policy.panic_on_violation) { abort(); }],
    the body the header gives the macro (mapguard.c writes it without the
    parentheses of the header's function-like form). *)
Definition MAYBE_PANIC (g : globals) : M unit :=
  if panic_on_violation (g_mapguard_policy g) then abort else ret tt.

(** Reading and writing the record a pointer points to.  The pointers the
    hooks hold come from the lookup or from the push, so the slot is
    there; the zeroed record stands for a read that never happens. *)
Definition load (mce : nat) : M mapguard_cache_entry_t :=
  fun s => (Ret (default new_mapguard_cache_entry
                   (g_map_cache_vector s !! mce)), s).

Definition modify (mce : nat)
    (f : mapguard_cache_entry_t -> mapguard_cache_entry_t) : M unit :=
  fun s => (Ret tt, with_vector (alter f mce (g_map_cache_vector s)) s).

(** [vector_for_each(&g_map_cache_vector, is_mapguard_entry_cached, addr)] *)
Definition lookup_entry (addr : Z) : M (option nat) :=
  fun s => (Ret (vector_for_each is_mapguard_entry_cached addr
                   (g_map_cache_vector s)), s).

Definition map_guard_page (g : globals) (addr : Z) : M Z :=
  real_mmap g (get_base_page g addr) (g_page_size g) PROT_NONE
    (Z.lor MAP_ANONYMOUS MAP_PRIVATE) (-1) 0.

Definition unmap_top_guard_page (g : globals) (mce : nat) : M unit :=
  let* e := load mce in
  if negb (guard_top e =? 0)
  then real_munmap g (guard_top e) (g_page_size g) >> ret tt
  else ret tt.

Definition unmap_bottom_guard_page (g : globals) (mce : nat) : M unit :=
  let* e := load mce in
  if negb (guard_bottom e =? 0)
  then real_munmap g (guard_bottom e) (g_page_size g) >> ret tt
  else ret tt.

Definition unmap_guard_pages (g : globals) (mce : nat) : M unit :=
  unmap_bottom_guard_page g mce >> unmap_top_guard_page g mce.

Definition map_bottom_guard_page (g : globals) (mce : option nat) : M unit :=
  match mce with
  | None => ret tt
  | Some p =>
      let* e := load p in
      let* gp := map_guard_page g (get_base_page g (wrap64 (start e - 1))) in
      modify p (set_guard_bottom gp)
  end.

Definition map_top_guard_page (g : globals) (mce : option nat) : M unit :=
  match mce with
  | None => ret tt
  | Some p =>
      let* e := load p in
      let* gp := map_guard_page g
                   (ROUND_UP_PAGE g (wrap64 (start e + size e))) in
      modify p (set_guard_top gp)
  end.

Definition map_guard_pages (g : globals) (mce : nat) : M unit :=
  let* e := load mce in
  if (start e =? 0) && negb (size e =? 0) then ret tt
  else map_bottom_guard_page g (Some mce) >> map_top_guard_page g (Some mce).

(** The caching block of [mmap]: a zeroed record is filled in and pushed,
    and the index [vector_push] returns is written to its [cache_index]. *)
Definition cache_mapping (map_ptr length prot : Z) : M (option nat) :=
  fun s =>
    let mce := new_mapguard_cache_entry in
    let mce := set_start map_ptr mce in
    let mce := set_size length mce in
    let mce := set_immutable_prot (Z.lor (immutable_prot mce) prot) mce in
    let mce := set_current_prot prot mce in
    let '(v, idx) := vector_push (g_map_cache_vector s) mce in
    let p := List.length (g_map_cache_vector s) in
    (Ret (Some p), with_vector (alter (set_cache_index idx) p v) s).

(** Hook of [mmap]. *)
Definition mmap (g : globals) (addr length prot flags fd offset : Z) : M Z :=
  let pol := g_mapguard_policy g in
  if negb (fd =? -1) then real_mmap g addr length prot flags fd offset
  else if disallow_rwx pol && has_flag prot PROT_WRITE
          && has_flag prot PROT_EXEC
  then MAYBE_PANIC g >> ret MAP_FAILED
  else if negb (addr =? 0) && disallow_static_address pol
  then MAYBE_PANIC g >> ret MAP_FAILED
  else
    let* map_ptr := real_mmap g addr length prot flags fd offset in
    if map_ptr =? MAP_FAILED then ret map_ptr
    else
      let* mce := (if use_mapping_cache pol
                   then cache_mapping map_ptr length prot
                   else ret None) in
      match mce with
      | Some p => when (enable_guard_pages pol) (map_guard_pages g p)
      | None => ret tt
      end >>
      when (poison_on_allocation pol && has_flag prot PROT_WRITE)
           (memset map_ptr MG_POISON_BYTE length) >>
      ret map_ptr.

(** [vector_delete_at(&g_map_cache_vector, index)] *)
Definition delete_entry (index : Z) : M unit :=
  fun s => (Ret tt, with_vector
                      (vector_delete_at (g_map_cache_vector s) index) s).

(** Hook of [munmap].  The records are held in their slots by value and
    [free(mce)] has no counterpart.  When [vector_delete_at] removes the
    slot of the record found ([cache_index] is the slot) the freed record
    leaves the store with its slot.  When [cache_index] names another
    slot, the slot of the record found stays in the store: there the code
    holds a pointer to freed memory, and the record this model still
    shows in that slot stands for nothing the code guarantees. *)
Definition munmap (g : globals) (addr length : Z) : M Z :=
  if use_mapping_cache (g_mapguard_policy g) then
    let* mce := lookup_entry addr in
    match mce with
    | Some p =>
        let* e := load p in
        if negb (start e =? addr) || negb (size e =? length) then
          modify p (fun e => set_size (wrap64 (size e - length)) e) >>
          let* e := load p in
          if (addr >? start e) && (length <? size e) then
            unmap_top_guard_page g p >>
            let* r := real_munmap g addr length in
            when (r =? 0) (map_top_guard_page g (Some p)) >>
            ret r
          else if start e =? addr then
            unmap_bottom_guard_page g p >>
            modify p (fun e => set_start (wrap64 (start e + length)) e) >>
            let* r := real_munmap g addr length in
            when (r =? 0) (map_bottom_guard_page g (Some p)) >>
            ret r
          else real_munmap g addr length
        else
          unmap_guard_pages g p >>
          delete_entry (cache_index e) >>
          real_munmap g addr length
    | None => real_munmap g addr length
    end
  else real_munmap g addr length.

(** Hook of [mprotect]. *)
Definition mprotect (g : globals) (addr len prot : Z) : M Z :=
  let pol := g_mapguard_policy g in
  let finish (mce : option nat) : M Z :=
    let* r := real_mprotect g addr len prot in
    match mce with
    | Some p =>
        when (r =? 0)
          (modify p (fun e =>
                       set_immutable_prot (Z.lor (immutable_prot e) prot) e) >>
           modify p (set_current_prot prot))
    | None => ret tt
    end >>
    ret r in
  if disallow_rwx pol && has_flag prot PROT_WRITE && has_flag prot PROT_EXEC
  then MAYBE_PANIC g >> ret ERROR
  else if use_mapping_cache pol then
    let* mce := lookup_entry addr in
    match mce with
    | Some p =>
        let* e := load p in
        if xom_enabled e =? 0 then
          if disallow_transition_to_x pol && has_flag prot PROT_EXEC
             && has_flag (immutable_prot e) PROT_WRITE
          then MAYBE_PANIC g >> set_errno EINVAL >> ret ERROR
          else if disallow_transition_from_x pol && has_flag prot PROT_WRITE
                  && has_flag (immutable_prot e) PROT_EXEC
          then MAYBE_PANIC g >> set_errno EINVAL >> ret ERROR
          else finish mce
        else finish mce
    | None => finish mce
    end
  else finish None.

(** Hook of [mremap]. *)
Definition mremap (g : globals) (addr old_len new_len flags : Z) : M Z :=
  let* map_ptr := real_mremap g addr old_len new_len flags in
  (if use_mapping_cache (g_mapguard_policy g) then
     let* mce := lookup_entry addr in
     match mce with
     | Some p =>
         let* e := load p in
         if (negb (guard_bottom e =? 0) || negb (guard_top e =? 0))
            && negb (map_ptr =? MAP_FAILED)
         then
           real_munmap g (guard_bottom e) (g_page_size g) >>
           real_munmap g (guard_top e) (g_page_size g) >>
           modify p (set_start map_ptr) >>
           modify p (set_size new_len) >>
           map_guard_pages g p
         else ret tt
     | None => ret tt
     end
   else ret tt) >>
  ret map_ptr.

(** [mapguard_ctor]: [vector_init] leaves the cache empty. *)
Definition initial_state (e : Z) : mg_state :=
  {| g_map_cache_vector := []; errno := e; effects := [] |}.

(** ** Concrete configurations and kernels for the examples *)

Fixpoint count_mmap (h : list event) : Z :=
  match h with
  | [] => 0
  | EvMmap _ _ _ _ _ _ _ :: h' => 1 + count_mmap h'
  | _ :: h' => count_mmap h'
  end.

(** A kernel that honours address hints, hands out fresh regions one
    megabyte apart otherwise, moves every remapped region to a high
    address, and never fails. *)
Definition kernel_ok (pol : mapguard_policy_t) : globals :=
  {| g_mapguard_policy := pol;
     g_page_size := 4096;
     g_real_mmap := fun h addr _ _ _ _ _ =>
       if addr =? 0 then 1048576 * (1 + count_mmap h) else addr;
     g_real_munmap := fun _ _ _ => 0;
     g_real_mprotect := fun _ _ _ _ => 0;
     g_real_mremap := fun _ _ _ _ _ => 1073741824;
     g_real_errno := fun _ e => e |}.

(** A kernel out of address space: every primitive fails with ENOMEM. *)
Definition kernel_fail (pol : mapguard_policy_t) : globals :=
  {| g_mapguard_policy := pol;
     g_page_size := 4096;
     g_real_mmap := fun _ _ _ _ _ _ _ => MAP_FAILED;
     g_real_munmap := fun _ _ _ => -1;
     g_real_mprotect := fun _ _ _ _ => -1;
     g_real_mremap := fun _ _ _ _ _ => MAP_FAILED;
     g_real_errno := fun _ _ => 12 |}.

(** A kernel that refuses [PROT_NONE] mappings (the guard pages) and
    serves everything else like [kernel_ok]. *)
Definition kernel_no_guard (pol : mapguard_policy_t) : globals :=
  {| g_mapguard_policy := pol;
     g_page_size := 4096;
     g_real_mmap := fun h addr _ prot _ _ _ =>
       if prot =? PROT_NONE then MAP_FAILED
       else if addr =? 0 then 1048576 * (1 + count_mmap h) else addr;
     g_real_munmap := fun _ _ _ => 0;
     g_real_mprotect := fun _ _ _ _ => 0;
     g_real_mremap := fun _ _ _ _ _ => 1073741824;
     g_real_errno := fun _ e => e |}.

(** A kernel whose [munmap] fails and that is [kernel_ok] otherwise. *)
Definition kernel_no_munmap (pol : mapguard_policy_t) : globals :=
  {| g_mapguard_policy := pol;
     g_page_size := 4096;
     g_real_mmap := fun h addr _ _ _ _ _ =>
       if addr =? 0 then 1048576 * (1 + count_mmap h) else addr;
     g_real_munmap := fun _ _ _ => -1;
     g_real_mprotect := fun _ _ _ _ => 0;
     g_real_mremap := fun _ _ _ _ _ => 1073741824;
     g_real_errno := fun _ _ => EINVAL |}.

(** Running one hook after another from a state; the run ends at the first
    [abort()]. *)
Inductive request :=
| ReqMmap (addr length prot flags fd offset : Z)
| ReqMunmap (addr length : Z)
| ReqMprotect (addr len prot : Z)
| ReqMremap (addr old_len new_len flags : Z).

Definition serve (g : globals) (r : request) : M Z :=
  match r with
  | ReqMmap addr length prot flags fd offset =>
      mmap g addr length prot flags fd offset
  | ReqMunmap addr length => munmap g addr length
  | ReqMprotect addr len prot => mprotect g addr len prot
  | ReqMremap addr old_len new_len flags => mremap g addr old_len new_len flags
  end.

Fixpoint run (g : globals) (rs : list request) (s : mg_state) : mg_state :=
  match rs with
  | [] => s
  | r :: rs' => match serve g r s with
                | (Ret _, s') => run g rs' s'
                | (Abort, s') => s'
                end
  end.

(** ** Specification vocabulary *)

(** How a policy denial ends: [MAYBE_PANIC] aborts the process when
    panic-on-violation is set, otherwise the hook returns its failure
    value. *)
Definition denied {A} (g : globals) (failure : A) : outcome A :=
  if panic_on_violation (g_mapguard_policy g) then Abort else Ret failure.

(** [a] has no permission bit that [b] lacks. *)
Definition prot_subset (a b : Z) : Prop := Z.land a b = a.

(** Every tracked record has been granted what it currently holds. *)
Definition prot_inv (v : list mapguard_cache_entry_t) : Prop :=
  Forall (fun e => prot_subset (current_prot e) (immutable_prot e)) v.

(** Slot by slot, the records of [v] are still in [v'], tracking the same
    mapping, with no bit of [immutable_prot] lost. *)
Definition grants_kept (v v' : list mapguard_cache_entry_t) : Prop :=
  forall p e, v !! p = Some e ->
    exists e', v' !! p = Some e' /\
               start e' = start e /\ size e' = size e /\
               cache_index e' = cache_index e /\
               prot_subset (immutable_prot e) (immutable_prot e').

(** What a record says about the mapping it tracks, guard pages aside. *)
Definition same_tracking (e e' : mapguard_cache_entry_t) : Prop :=
  start e' = start e /\ size e' = size e /\
  immutable_prot e' = immutable_prot e /\
  current_prot e' = current_prot e /\
  cache_index e' = cache_index e /\ xom_enabled e' = xom_enabled e.

(** [cache_index] is the position of the record in the vector. *)
Definition index_synced (v : list mapguard_cache_entry_t) : Prop :=
  forall p e, v !! p = Some e -> cache_index e = Z.of_nat p.

Definition create_or_reprotect (r : request) : bool :=
  match r with
  | ReqMmap _ _ _ _ _ _ | ReqMprotect _ _ _ => true
  | _ => false
  end.

(** The real primitive that request [r] delegates to fails when called in
    state [s]. *)
Definition real_call_fails (g : globals) (r : request) (s : mg_state)
    : Prop :=
  match r with
  | ReqMmap addr length prot flags fd offset =>
      g_real_mmap g (effects s) addr length prot flags fd offset = MAP_FAILED
  | ReqMunmap addr length => g_real_munmap g (effects s) addr length <> 0
  | ReqMprotect addr len prot =>
      g_real_mprotect g (effects s) addr len prot <> 0
  | ReqMremap addr old_len new_len flags =>
      g_real_mremap g (effects s) addr old_len new_len flags = MAP_FAILED
  end.

(** [r] is a [munmap] of an address for which the cache lookup finds a
    record. *)
Definition munmap_of_tracked (g : globals) (r : request) (s : mg_state)
    : bool :=
  match r with
  | ReqMunmap addr _ =>
      use_mapping_cache (g_mapguard_policy g)
      && bool_decide (is_Some (vector_for_each is_mapguard_entry_cached addr
                                 (g_map_cache_vector s)))
  | _ => false
  end.

(** Policies used in the examples. *)
Definition policy_cache : mapguard_policy_t :=
  {| disallow_rwx := false; disallow_transition_to_x := false;
     disallow_transition_from_x := false; disallow_static_address := false;
     enable_guard_pages := false; panic_on_violation := false;
     poison_on_allocation := false; use_mapping_cache := true |}.

Definition policy_guard : mapguard_policy_t :=
  {| disallow_rwx := false; disallow_transition_to_x := false;
     disallow_transition_from_x := false; disallow_static_address := false;
     enable_guard_pages := true; panic_on_violation := false;
     poison_on_allocation := false; use_mapping_cache := true |}.

Definition policy_rwx (panic : bool) : mapguard_policy_t :=
  {| disallow_rwx := true; disallow_transition_to_x := false;
     disallow_transition_from_x := false; disallow_static_address := false;
     enable_guard_pages := false; panic_on_violation := panic;
     poison_on_allocation := false; use_mapping_cache := true |}.

Definition policy_to_x (panic : bool) : mapguard_policy_t :=
  {| disallow_rwx := false; disallow_transition_to_x := true;
     disallow_transition_from_x := false; disallow_static_address := false;
     enable_guard_pages := false; panic_on_violation := panic;
     poison_on_allocation := false; use_mapping_cache := true |}.

(** A hook, or a step of one, takes every cache vector to one related to
    it by [R], whether it returns or aborts. *)
Definition stable (R : relation (list mapguard_cache_entry_t)) {A}
    (c : M A) : Prop :=
  forall s, R (g_map_cache_vector s) (g_map_cache_vector (snd (c s))).

(** A step returns, with a value that satisfies [P]: it does not abort. *)
Definition yields {A} (c : M A) (P : A -> Prop) : Prop :=
  forall s, exists a s', c s = (Ret a, s') /\ P a.

Definition never_aborts {A} (c : M A) : Prop := yields c (fun _ => True).

(** The relation: the invariant is kept and no grant is lost. *)
Definition prot_step (v v' : list mapguard_cache_entry_t) : Prop :=
  (prot_inv v -> prot_inv v') /\ grants_kept v v'.

(** The same records in the same slots, up to their guard fields. *)
Definition guards_only (v v' : list mapguard_cache_entry_t) : Prop :=
  List.length v' = List.length v /\
  forall p e, v !! p = Some e ->
    exists e', v' !! p = Some e' /\ same_tracking e e'.

(** The invariant of the permission fields, if there, is kept. *)
Definition inv_kept (v v' : list mapguard_cache_entry_t) : Prop :=
  prot_inv v -> prot_inv v'.

(** The synchronisation of [cache_index], if there, is kept. *)
Definition index_kept (v v' : list mapguard_cache_entry_t) : Prop :=
  index_synced v -> index_synced v'.

(** The policy checks of [mmap] let the anonymous request through. *)
Definition mmap_allowed (g : globals) (addr prot : Z) : Prop :=
  (disallow_rwx (g_mapguard_policy g) && has_flag prot PROT_WRITE
   && has_flag prot PROT_EXEC = false) /\
  (negb (addr =? 0) && disallow_static_address (g_mapguard_policy g)
   = false).

(** The rules of the policy engine for a change of protection. *)
Definition rwx_violation (g : globals) (prot : Z) : Prop :=
  disallow_rwx (g_mapguard_policy g) = true /\
  Z.land prot PROT_WRITE <> 0 /\ Z.land prot PROT_EXEC <> 0.

Definition to_x_violation (g : globals) (prot : Z)
    (e : mapguard_cache_entry_t) : Prop :=
  disallow_transition_to_x (g_mapguard_policy g) = true /\
  Z.land prot PROT_EXEC <> 0 /\ Z.land (immutable_prot e) PROT_WRITE <> 0.

Definition from_x_violation (g : globals) (prot : Z)
    (e : mapguard_cache_entry_t) : Prop :=
  disallow_transition_from_x (g_mapguard_policy g) = true /\
  Z.land prot PROT_WRITE <> 0 /\ Z.land (immutable_prot e) PROT_EXEC <> 0.

(** The request [mprotect(addr, _, prot)] is one that a rule denies in
    state [s]: Disallow-RWX, or a transition rule on the record found for
    [addr], which is not execute-only. *)
Definition mprotect_violation (g : globals) (addr prot : Z)
    (s : mg_state) : Prop :=
  rwx_violation g prot \/
  (use_mapping_cache (g_mapguard_policy g) = true /\
   exists p e,
     vector_for_each is_mapguard_entry_cached addr (g_map_cache_vector s)
       = Some p /\
     g_map_cache_vector s !! p = Some e /\ xom_enabled e = 0 /\
     (to_x_violation g prot e \/ from_x_violation g prot e)).

(** The real [munmap] of a guard page, if the field holds one. *)
Definition guard_unmap (g : globals) (h : list event) (gp : Z)
    : list event :=
  if gp =? 0 then []
  else [EvMunmap gp (g_page_size g) (g_real_munmap g h gp (g_page_size g))].

(** The record of an 8192-byte mapping with both guard pages. *)
Definition guarded_entry : mapguard_cache_entry_t :=
  {| start := 1048576; size := 8192; guard_bottom := 1044480;
     guard_top := 1056768; immutable_prot := 3; current_prot := 3;
     cache_index := 0; xom_enabled := 0 |}.

(** The record of a 4096-byte read-write mapping at [a], no guard pages. *)
Definition entry_at (a idx : Z) : mapguard_cache_entry_t :=
  {| start := a; size := 4096; guard_bottom := 0; guard_top := 0;
     immutable_prot := 3; current_prot := 3; cache_index := idx;
     xom_enabled := 0 |}.

(** ** The constructor

    [getenv], [strtoul] and [getpagesize] belong to the C library: they
    are what the process finds when the library is loaded. *)

Record environment := {
  getenv : String.string -> option String.string;
  strtoul : String.string -> Z;
  getpagesize : Z
}.

(** The conversion of the [unsigned long] that [strtoul] returns to the
    [int32_t] that [env_to_int] returns. *)
Definition to_int32 (z : Z) : Z := (z + 2 ^ 31) mod 2 ^ 32 - 2 ^ 31.

Definition env_to_int (env : environment) (name : String.string) : Z :=
  match getenv env name with
  | None => 0
  | Some p => to_int32 (strtoul env p)
  end.

(** [ENV_TO_INT(env, config)]: [if(env_to_int(env)) { config = 1; }] *)
Definition ENV_TO_INT (env : environment) (name : String.string)
    (config : bool) : bool :=
  if negb (env_to_int env name =? 0) then true else config.

Definition MG_DISALLOW_RWX : String.string := "MG_DISALLOW_RWX"%string.
Definition MG_DISALLOW_TRANSITION_TO_X : String.string :=
  "MG_DISALLOW_TRANSITION_TO_X"%string.
Definition MG_DISALLOW_TRANSITION_FROM_X : String.string :=
  "MG_DISALLOW_TRANSITION_FROM_X"%string.
Definition MG_DISALLOW_STATIC_ADDRESS : String.string :=
  "MG_DISALLOW_STATIC_ADDRESS"%string.
Definition MG_ENABLE_GUARD_PAGES : String.string :=
  "MG_ENABLE_GUARD_PAGES"%string.
Definition MG_PANIC_ON_VIOLATION : String.string :=
  "MG_PANIC_ON_VIOLATION"%string.
Definition MG_POISON_ON_ALLOCATION : String.string :=
  "MG_POISON_ON_ALLOCATION"%string.
Definition MG_USE_MAPPING_CACHE : String.string :=
  "MG_USE_MAPPING_CACHE"%string.

(** [mapguard_ctor]: [g] holds the policy as it is before the constructor
    runs and the symbols [dlsym] resolves; the result holds the policy the
    environment sets, the real primitives, and the page size, and the
    cache is initialised empty. *)
Definition mapguard_ctor (env : environment) (g : globals) (s : mg_state)
    : globals * mg_state :=
  let pol := g_mapguard_policy g in
  ({| g_mapguard_policy :=
        {| disallow_rwx := ENV_TO_INT env MG_DISALLOW_RWX (disallow_rwx pol);
           disallow_transition_to_x :=
             ENV_TO_INT env MG_DISALLOW_TRANSITION_TO_X
               (disallow_transition_to_x pol);
           disallow_transition_from_x :=
             ENV_TO_INT env MG_DISALLOW_TRANSITION_FROM_X
               (disallow_transition_from_x pol);
           disallow_static_address :=
             ENV_TO_INT env MG_DISALLOW_STATIC_ADDRESS
               (disallow_static_address pol);
           enable_guard_pages :=
             ENV_TO_INT env MG_ENABLE_GUARD_PAGES (enable_guard_pages pol);
           panic_on_violation :=
             ENV_TO_INT env MG_PANIC_ON_VIOLATION (panic_on_violation pol);
           poison_on_allocation :=
             ENV_TO_INT env MG_POISON_ON_ALLOCATION
               (poison_on_allocation pol);
           use_mapping_cache :=
             ENV_TO_INT env MG_USE_MAPPING_CACHE (use_mapping_cache pol) |};
      g_page_size := getpagesize env;
      g_real_mmap := g_real_mmap g;
      g_real_munmap := g_real_munmap g;
      g_real_mprotect := g_real_mprotect g;
      g_real_mremap := g_real_mremap g;
      g_real_errno := g_real_errno g |},
   with_vector [] s).

(** The policy of a freshly loaded library: the global is zeroed. *)
Definition policy_zero : mapguard_policy_t :=
  {| disallow_rwx := false; disallow_transition_to_x := false;
     disallow_transition_from_x := false; disallow_static_address := false;
     enable_guard_pages := false; panic_on_violation := false;
     poison_on_allocation := false; use_mapping_cache := false |}.

(** The variable [name] is set to a value that [strtoul] reads as a number
    which is not a multiple of [2^32]. *)
Definition switch_set (env : environment) (name : String.string) : Prop :=
  exists v, getenv env name = Some v /\ strtoul env v mod 2 ^ 32 <> 0.

(** ** Further vocabulary *)

(** The address range [[start, start + size)] of a record does not wrap
    around the address space. *)
Definition range_ok (e : mapguard_cache_entry_t) : Prop :=
  0 <= start e /\ 0 <= size e /\ start e + size e < 2 ^ 64.

(** The first page boundary at or after [N]. *)
Definition page_ceiling (ps N : Z) : Z := (N + ps - 1) / ps * ps.

(** No record of [v] covers [addr]. *)
Definition untracked (addr : Z) (v : list mapguard_cache_entry_t) : Prop :=
  forall e, e ∈ v -> is_mapguard_entry_cached e addr = false.

(** ** Definitions used by the further properties *)

Definition env_example : environment :=
  {| getenv := fun name =>
       if String.eqb name MG_USE_MAPPING_CACHE then Some "1"%string
       else if String.eqb name MG_DISALLOW_RWX then Some "4294967296"%string
       else None;
     strtoul := fun v => if String.eqb v "1"%string then 1 else 2 ^ 32;
     getpagesize := 4096 |}.

Definition policy_static : mapguard_policy_t :=
  {| disallow_rwx := false; disallow_transition_to_x := false;
     disallow_transition_from_x := false; disallow_static_address := true;
     enable_guard_pages := false; panic_on_violation := false;
     poison_on_allocation := false; use_mapping_cache := true |}.

Definition policy_guard_no_cache : mapguard_policy_t :=
  {| disallow_rwx := true; disallow_transition_to_x := true;
     disallow_transition_from_x := true; disallow_static_address := false;
     enable_guard_pages := true; panic_on_violation := false;
     poison_on_allocation := true; use_mapping_cache := false |}.

Definition policy_transitions_no_cache : mapguard_policy_t :=
  {| disallow_rwx := false; disallow_transition_to_x := true;
     disallow_transition_from_x := true; disallow_static_address := false;
     enable_guard_pages := false; panic_on_violation := true;
     poison_on_allocation := false; use_mapping_cache := false |}.

(** Where [map_bottom_guard_page] and [map_top_guard_page] ask for the
    guard page of a record. *)
Definition bottom_hint (g : globals) (e : mapguard_cache_entry_t) : Z :=
  get_base_page g (get_base_page g (wrap64 (start e - 1))).

Definition top_hint (g : globals) (e : mapguard_cache_entry_t) : Z :=
  get_base_page g (ROUND_UP_PAGE g (wrap64 (start e + size e))).

(** The request for one guard page at [hint] and what the kernel answers
    after the calls [h]. *)
Definition guard_answer (g : globals) (h : list event) (hint : Z) : Z :=
  g_real_mmap g h hint (g_page_size g) PROT_NONE
    (Z.lor MAP_ANONYMOUS MAP_PRIVATE) (-1) 0.

Definition guard_request (g : globals) (h : list event) (hint : Z)
    : event :=
  EvMmap hint (g_page_size g) PROT_NONE (Z.lor MAP_ANONYMOUS MAP_PRIVATE)
    (-1) 0 (guard_answer g h hint).

(** The record [mmap] pushes for a new mapping, before any guard page. *)
Definition fresh_entry (map_ptr length prot idx : Z)
    : mapguard_cache_entry_t :=
  {| start := map_ptr; size := length; guard_bottom := 0; guard_top := 0;
     immutable_prot := prot; current_prot := prot; cache_index := idx;
     xom_enabled := 0 |}.

(** [mmap] goes on to [map_guard_pages], which does its work. *)
Definition guards_placed (g : globals) (map_ptr length : Z) : bool :=
  enable_guard_pages (g_mapguard_policy g)
  && negb ((map_ptr =? 0) && negb (length =? 0)).

Definition policy_guard_poison : mapguard_policy_t :=
  {| disallow_rwx := true; disallow_transition_to_x := false;
     disallow_transition_from_x := false; disallow_static_address := true;
     enable_guard_pages := true; panic_on_violation := false;
     poison_on_allocation := true; use_mapping_cache := true |}.

(** [r] is a [munmap] whose address and length are exactly the start
    and the size of the record the lookup finds. *)
Definition exact_munmap (g : globals) (r : request) (s : mg_state) : Prop :=
  exists addr length p e,
    r = ReqMunmap addr length /\
    use_mapping_cache (g_mapguard_policy g) = true /\
    vector_for_each is_mapguard_entry_cached addr (g_map_cache_vector s)
      = Some p /\
    g_map_cache_vector s !! p = Some e /\
    start e = addr /\ size e = length.

(** * Properties *)

(** ** The monad *)

Lemma call_real_eq g mk f s :
  call_real g mk f s =
  (Ret (f (effects s)),
   {| g_map_cache_vector := g_map_cache_vector s;
      errno := g_real_errno g (effects s ++ [mk (f (effects s))]) (errno s);
      effects := effects s ++ [mk (f (effects s))] |}).
Proof. reflexivity. Qed.

Lemma has_flag_true prot flag :
  Z.land prot flag <> 0 -> has_flag prot flag = true.
Proof.
  intros H. unfold has_flag. apply negb_true_iff. now apply Z.eqb_neq.
Qed.

Lemma has_flag_iff prot flag :
  has_flag prot flag = true <-> Z.land prot flag <> 0.
Proof.
  unfold has_flag. rewrite negb_true_iff. apply Z.eqb_neq.
Qed.

Lemma rwx_violation_iff g prot :
  rwx_violation g prot <->
  disallow_rwx (g_mapguard_policy g) && has_flag prot PROT_WRITE
  && has_flag prot PROT_EXEC = true.
Proof.
  unfold rwx_violation. rewrite !andb_true_iff, !has_flag_iff. tauto.
Qed.

(** ** The lookup *)

Lemma vector_for_each_Some {A D} (fe : A -> D -> bool) data v p :
  vector_for_each fe data v = Some p ->
  exists e, v !! p = Some e /\ fe e data = true /\
            forall j q, (j < p)%nat -> v !! j = Some q -> fe q data = false.
Proof.
  revert p. induction v as [|a v IH]; intros p H; simpl in H.
  - discriminate.
  - destruct (fe a data) eqn:Ha.
    + injection H as <-. exists a. repeat split; auto. intros j q Hj. lia.
    + destruct (vector_for_each fe data v) as [i|] eqn:Hv; simpl in H;
        [|discriminate].
      injection H as <-. destruct (IH i eq_refl) as (e & He & Hfe & Hlt).
      exists e. repeat split; auto.
      intros [|j] q Hj Hq; simpl in Hq.
      * now injection Hq as <-.
      * apply (Hlt j); auto. lia.
Qed.

Lemma vector_for_each_None {A D} (fe : A -> D -> bool) data v :
  vector_for_each fe data v = None <->
  forall e, e ∈ v -> fe e data = false.
Proof.
  induction v as [|a v IH]; simpl.
  - split; auto. intros _ e He. inversion He.
  - destruct (fe a data) eqn:Ha.
    + split; [discriminate|]. intros H.
      rewrite (H a) in Ha; [discriminate|]. constructor.
    + destruct (vector_for_each fe data v) as [i|] eqn:Hv; simpl.
      * split; [discriminate|]. intros H.
        destruct IH as [_ IH]. discriminate IH.
        intros e He. apply H. now constructor.
      * split; auto. intros _ e He. inversion He; subst; auto.
        destruct IH as [IH _]. now apply IH.
Qed.

(** A record that is the only one of the store to cover [addr] is the one
    the lookup finds. *)
Lemma vector_for_each_unique {A D} (fe : A -> D -> bool) data v p e :
  v !! p = Some e -> fe e data = true ->
  (forall j q, v !! j = Some q -> fe q data = true -> j = p) ->
  vector_for_each fe data v = Some p.
Proof.
  intros He Hfe Hu.
  destruct (vector_for_each fe data v) as [i|] eqn:Hv.
  - destruct (vector_for_each_Some _ _ _ _ Hv) as (q & Hq & Hfq & _).
    f_equal. now apply (Hu i q).
  - rewrite vector_for_each_None in Hv.
    rewrite Hv in Hfe; [discriminate|].
    apply list_elem_of_lookup. eauto.
Qed.

(** Once the record is out, an address that no other record covers is
    not found. *)
Lemma lookup_after_delete {A D} (fe : A -> D -> bool) data v p :
  (forall q e, v !! q = Some e -> q <> p -> fe e data = false) ->
  vector_for_each fe data (delete p v) = None.
Proof.
  intros H. apply vector_for_each_None. intros e He.
  apply list_elem_of_lookup in He as [q Hq].
  rewrite list_lookup_delete in Hq.
  destruct (decide (q < p)%nat).
  - apply (H q e); auto. lia.
  - apply (H (S q) e); auto. lia.
Qed.

Lemma alter_app_last {A} (f : A -> A) (v : list A) (e : A) :
  alter f (List.length v) (v ++ [e]) = v ++ [f e].
Proof.
  replace (List.length v) with (List.length v + 0)%nat by lia.
  now rewrite alter_app_r.
Qed.

(** ** Relations between the cache before and after a hook

    A hook is a sequence of small steps; a preorder on cache vectors that
    every step respects is respected by the hook, whether it returns or
    aborts. *)

Section Stable.
Context (R : relation (list mapguard_cache_entry_t)) `{!PreOrder R}.

Lemma stable_ret {A} (a : A) : stable R (ret a).
Proof. intros s. simpl. reflexivity. Qed.

Lemma stable_abort {A} : stable R (@abort A).
Proof. intros s. simpl. reflexivity. Qed.

Lemma stable_bind {A B} (c : M A) (k : A -> M B) :
  stable R c -> (forall a, stable R (k a)) -> stable R (bind c k).
Proof.
  intros Hc Hk s. unfold bind. specialize (Hc s).
  destruct (c s) as [[a|] s1]; simpl in *; auto.
  etransitivity; [exact Hc|]. apply Hk.
Qed.

Lemma stable_call_real g mk f : stable R (call_real g mk f).
Proof. intros s. simpl. reflexivity. Qed.

Lemma stable_memset p b n : stable R (memset p b n).
Proof. intros s. simpl. reflexivity. Qed.

Lemma stable_set_errno n : stable R (set_errno n).
Proof. intros s. simpl. reflexivity. Qed.

Lemma stable_load p : stable R (load p).
Proof. intros s. simpl. reflexivity. Qed.

Lemma stable_lookup_entry addr : stable R (lookup_entry addr).
Proof. intros s. simpl. reflexivity. Qed.

Lemma stable_MAYBE_PANIC g : stable R (MAYBE_PANIC g).
Proof.
  unfold MAYBE_PANIC. destruct (panic_on_violation _);
    [apply stable_abort | apply stable_ret].
Qed.

Lemma stable_when b c : stable R c -> stable R (when b c).
Proof. intros Hc. destruct b; simpl; [exact Hc | apply stable_ret]. Qed.

Lemma stable_modify p f :
  (forall v, R v (alter f p v)) -> stable R (modify p f).
Proof. intros H s. simpl. apply H. Qed.

Lemma stable_delete_entry index :
  (forall v, R v (vector_delete_at v index)) -> stable R (delete_entry index).
Proof. intros H s. simpl. apply H. Qed.

(** Two writes through the same pointer, one after the other. *)
Lemma stable_modify_twice p f1 f2 :
  (forall v, R v (alter (f2 ∘ f1) p v)) ->
  stable R (modify p f1 >> modify p f2).
Proof.
  intros H s. unfold bind, modify. simpl.
  rewrite list_alter_alter_eq. apply H.
Qed.

Lemma stable_run g rs :
  (forall r, r ∈ rs -> stable R (serve g r)) ->
  forall s, R (g_map_cache_vector s) (g_map_cache_vector (run g rs s)).
Proof.
  induction rs as [|r rs IH]; intros H s; simpl.
  - reflexivity.
  - assert (Hr : stable R (serve g r)) by (apply H; constructor).
    specialize (Hr s).
    destruct (serve g r s) as [[a|] s1]; simpl in *; auto.
    etransitivity; [exact Hr|]. apply IH.
    intros r' Hr'. apply H. now constructor.
Qed.
End Stable.

(** Breaks a hook into its steps. *)
Ltac stable_steps :=
  repeat first
    [ match goal with |- PreOrder _ => typeclasses eauto end
    | apply stable_ret | apply stable_abort | apply stable_call_real
    | apply stable_memset | apply stable_set_errno | apply stable_load
    | apply stable_lookup_entry | apply stable_MAYBE_PANIC
    | apply stable_when
    | apply stable_modify_twice
    | apply stable_bind; [typeclasses eauto | | intros ?]
    | match goal with
      | |- stable _ (if ?b then _ else _) => destruct b
      | |- stable _ (match ?o with Some _ => _ | None => _ end) => destruct o
      end ].

(** ** Steps that cannot abort *)

Lemma yields_ret {A} (a : A) (P : A -> Prop) : P a -> yields (ret a) P.
Proof. intros H s. exists a, s. auto. Qed.

Lemma yields_seq {A B} (c : M A) (k : A -> M B) (Q : B -> Prop) :
  never_aborts c -> (forall a, yields (k a) Q) -> yields (bind c k) Q.
Proof.
  intros Hc Hk s. destruct (Hc s) as (a & s1 & E & _).
  destruct (Hk a s1) as (b & s2 & E2 & Hb).
  exists b, s2. split; auto. unfold bind. now rewrite E.
Qed.

Lemma never_aborts_call_real g mk f : never_aborts (call_real g mk f).
Proof. intros s. rewrite call_real_eq. eauto. Qed.

Lemma never_aborts_load p : never_aborts (load p).
Proof. intros s. unfold load. eauto. Qed.

Lemma never_aborts_modify p f : never_aborts (modify p f).
Proof. intros s. unfold modify. eauto. Qed.

Lemma never_aborts_memset p b n : never_aborts (memset p b n).
Proof. intros s. unfold memset. eauto. Qed.

Lemma never_aborts_when b c : never_aborts c -> never_aborts (when b c).
Proof. intros H. destruct b; simpl; auto. now apply yields_ret. Qed.

Ltac yields_steps :=
  repeat first
    [ apply yields_ret; first [exact I | reflexivity]
    | apply never_aborts_call_real | apply never_aborts_load
    | apply never_aborts_modify | apply never_aborts_memset
    | apply never_aborts_when
    | apply yields_seq; [|intros ?]
    | match goal with
      | |- yields (if ?b then _ else _) _ => destruct b
      | |- never_aborts (if ?b then _ else _) => destruct b
      | |- never_aborts ?c => unfold never_aborts
      end ].

Lemma never_aborts_map_guard_pages g p : never_aborts (map_guard_pages g p).
Proof.
  unfold map_guard_pages, map_bottom_guard_page, map_top_guard_page,
    map_guard_page, real_mmap.
  yields_steps.
Qed.

(** ** Permission bits *)

Lemma prot_subset_refl a : prot_subset a a.
Proof. apply Z.land_diag. Qed.

Lemma prot_subset_trans a b c :
  prot_subset a b -> prot_subset b c -> prot_subset a c.
Proof.
  unfold prot_subset. intros Hab Hbc.
  rewrite <- Hab. rewrite <- Z.land_assoc. now rewrite Hbc.
Qed.

Lemma prot_subset_lor_l a b : prot_subset a (Z.lor a b).
Proof.
  unfold prot_subset. apply Z.bits_inj'. intros n _.
  rewrite Z.land_spec, Z.lor_spec.
  now destruct (Z.testbit a n), (Z.testbit b n).
Qed.

Lemma prot_subset_lor_r a b : prot_subset b (Z.lor a b).
Proof. rewrite Z.lor_comm. apply prot_subset_lor_l. Qed.

#[local] Instance prot_step_preorder : PreOrder prot_step.
Proof.
  split.
  - intros v. split; auto. intros p e He. exists e.
    repeat split; auto. apply prot_subset_refl.
  - intros a b c [Hab Gab] [Hbc Gbc]. split; auto.
    intros p e He.
    destruct (Gab p e He) as (e1 & He1 & A1 & A2 & A3 & S1).
    destruct (Gbc p e1 He1) as (e2 & He2 & B1 & B2 & B3 & S2).
    exists e2. repeat split; try congruence.
    eapply prot_subset_trans; eauto.
Qed.

(** A write to the permission or guard fields that keeps the invariant of
    the record and loses no grant. *)
Lemma prot_step_alter f p v :
  (forall e, start (f e) = start e /\ size (f e) = size e /\
             cache_index (f e) = cache_index e) ->
  (forall e, prot_subset (immutable_prot e) (immutable_prot (f e))) ->
  (forall e, prot_subset (current_prot e) (immutable_prot e) ->
             prot_subset (current_prot (f e)) (immutable_prot (f e))) ->
  prot_step v (alter f p v).
Proof.
  intros Hk Hm Hi. split.
  - intros Hv. apply Forall_alter; auto.
  - intros q e He. destruct (decide (q = p)) as [->|Hne].
    + exists (f e). destruct (Hk e) as (K1 & K2 & K3).
      repeat split; auto. now rewrite list_lookup_alter_eq, He.
    + exists e. repeat split; [|apply prot_subset_refl].
      rewrite list_lookup_alter_ne; auto.
Qed.

(** Writes that leave both permission fields alone. *)
Lemma stable_modify_guard p f :
  (forall e, same_tracking e (f e)) -> stable prot_step (modify p f).
Proof.
  intros Hf. apply stable_modify. intros v. apply prot_step_alter.
  - intros e. destruct (Hf e) as (T1 & T2 & _ & _ & T5 & _). auto.
  - intros e. destruct (Hf e) as (_ & _ & T3 & _). rewrite T3.
    apply prot_subset_refl.
  - intros e. destruct (Hf e) as (_ & _ & T3 & T4 & _). now rewrite T3, T4.
Qed.

Lemma stable_map_guard_pages g p : stable prot_step (map_guard_pages g p).
Proof.
  unfold map_guard_pages, map_bottom_guard_page, map_top_guard_page,
    map_guard_page, real_mmap.
  stable_steps; apply stable_modify_guard; intros e; repeat split.
Qed.

Lemma stable_cache_mapping map_ptr length prot :
  stable prot_step (cache_mapping map_ptr length prot).
Proof.
  intros s. unfold cache_mapping, vector_push. simpl.
  set (v := g_map_cache_vector s).
  rewrite alter_app_last. simpl. split.
  - intros Hv. apply Forall_app. split; auto.
    constructor; [|constructor]. simpl. apply prot_subset_refl.
  - intros p e He. exists e. repeat split; [|apply prot_subset_refl].
    rewrite lookup_app_l; auto. now apply lookup_lt_Some with e.
Qed.

Lemma stable_mmap g addr length prot flags fd offset :
  stable prot_step (mmap g addr length prot flags fd offset).
Proof.
  unfold mmap, real_mmap. cbv zeta.
  stable_steps;
    first [ apply stable_cache_mapping
          | apply stable_modify_guard; intros e; repeat split ].
Qed.

Lemma stable_mprotect g addr len prot :
  stable prot_step (mprotect g addr len prot).
Proof.
  unfold mprotect, real_mprotect. cbv zeta.
  stable_steps; intros v; apply prot_step_alter; intros e; simpl;
    auto using prot_subset_lor_l, prot_subset_lor_r.
Qed.

(** The invariant of the permission fields survives every hook, [munmap]
    and [mremap] included: they write [start], [size] and the guard fields
    only, or take a record out. *)
#[local] Instance inv_kept_preorder : PreOrder inv_kept.
Proof. split; unfold inv_kept; [intros v|intros a b c]; auto. Qed.

Lemma inv_kept_alter f p v :
  (forall e, immutable_prot (f e) = immutable_prot e) ->
  (forall e, current_prot (f e) = current_prot e) ->
  inv_kept v (alter f p v).
Proof.
  intros Hi Hc Hv. apply Forall_alter; auto.
  intros e _ He. now rewrite Hi, Hc.
Qed.

Lemma inv_kept_delete v index : inv_kept v (vector_delete_at v index).
Proof.
  intros Hv. unfold vector_delete_at.
  destruct ((0 <=? index) && _); auto. now apply Forall_delete.
Qed.

(** After any sequence of the four hooks every tracked record has
    [current_prot] within [immutable_prot], if every record had before:
    [mmap] and [mprotect] write both fields together, [munmap] and
    [mremap] write neither. *)
Lemma prot_inv_every_hook (g : globals) (rs : list request) (s : mg_state) :
  prot_inv (g_map_cache_vector s) ->
  prot_inv (g_map_cache_vector (run g rs s)).
Proof.
  apply (stable_run inv_kept). intros r _.
  destruct r; simpl.
  - intros s0 H0. now apply stable_mmap.
  - unfold munmap, unmap_guard_pages, unmap_top_guard_page,
      unmap_bottom_guard_page, map_top_guard_page, map_bottom_guard_page,
      map_guard_page, real_munmap, real_mmap.
    stable_steps;
      first [ apply stable_delete_entry; intros v; apply inv_kept_delete
            | apply stable_modify; intros v; now apply inv_kept_alter ].
  - intros s0 H0. now apply stable_mprotect.
  - unfold mremap, map_guard_pages, map_top_guard_page,
      map_bottom_guard_page, map_guard_page, real_mremap, real_munmap,
      real_mmap.
    stable_steps; apply stable_modify; intros v; now apply inv_kept_alter.
Qed.

(** ** Guard fields *)

Lemma same_tracking_refl e : same_tracking e e.
Proof. repeat split. Qed.

Lemma same_tracking_trans e1 e2 e3 :
  same_tracking e1 e2 -> same_tracking e2 e3 -> same_tracking e1 e3.
Proof.
  unfold same_tracking. intros (A1 & A2 & A3 & A4 & A5 & A6)
                               (B1 & B2 & B3 & B4 & B5 & B6).
  repeat split; congruence.
Qed.

#[local] Instance guards_only_preorder : PreOrder guards_only.
Proof.
  split.
  - intros v. split; auto. intros p e He. exists e.
    split; auto using same_tracking_refl.
  - intros a b c [La Ga] [Lb Gb]. split; [congruence|].
    intros p e He. destruct (Ga p e He) as (e1 & He1 & S1).
    destruct (Gb p e1 He1) as (e2 & He2 & S2).
    exists e2. split; auto. eapply same_tracking_trans; eauto.
Qed.

Lemma guards_only_alter f p v :
  (forall e, same_tracking e (f e)) -> guards_only v (alter f p v).
Proof.
  intros Hf. split; [apply length_alter|].
  intros q e He. destruct (decide (q = p)) as [->|Hne].
  - exists (f e). split; auto. now rewrite list_lookup_alter_eq, He.
  - exists e. split; auto using same_tracking_refl.
    rewrite list_lookup_alter_ne; auto.
Qed.

Lemma stable_guards_map_guard_pages g p :
  stable guards_only (map_guard_pages g p).
Proof.
  unfold map_guard_pages, map_bottom_guard_page, map_top_guard_page,
    map_guard_page, real_mmap.
  stable_steps; apply stable_modify; intros v; apply guards_only_alter;
    intros e; repeat split.
Qed.

Lemma unmap_guard_pages_run g p e s :
  g_map_cache_vector s !! p = Some e ->
  exists s',
    unmap_guard_pages g p s = (Ret tt, s') /\
    g_map_cache_vector s' = g_map_cache_vector s /\
    effects s' =
      (effects s ++ guard_unmap g (effects s) (guard_bottom e))
      ++ guard_unmap g (effects s ++ guard_unmap g (effects s)
                                       (guard_bottom e)) (guard_top e).
Proof.
  intros He.
  unfold unmap_guard_pages, unmap_bottom_guard_page, unmap_top_guard_page,
    guard_unmap, bind, load, real_munmap. rewrite He. simpl.
  destruct (guard_bottom e =? 0); simpl; rewrite ?He; simpl;
    destruct (guard_top e =? 0); simpl;
    eexists; (split; [reflexivity|]); simpl; rewrite ?app_nil_r; auto.
Qed.

(** ** How the vector loses the synchronisation of [cache_index] *)

(** Deleting any slot but the last of a synchronised vector leaves a
    vector that is not synchronised: the records behind the slot moved
    and nothing wrote their [cache_index]. *)
Lemma delete_breaks_index_sync v p :
  index_synced v -> (S p < List.length v)%nat ->
  ~ index_synced (vector_delete_at v (Z.of_nat p)).
Proof.
  intros Hs Hlt Hd.
  destruct (lookup_lt_is_Some_2 v (S p) Hlt) as [e He].
  assert (Hq : vector_delete_at v (Z.of_nat p) !! p = Some e).
  { unfold vector_delete_at.
    replace (0 <=? Z.of_nat p) with true by (symmetry; apply Z.leb_le; lia).
    replace (Z.of_nat p <? Z.of_nat (List.length v)) with true
      by (symmetry; apply Z.ltb_lt; lia).
    simpl. rewrite Nat2Z.id. rewrite list_lookup_delete_ge by lia.
    exact He. }
  apply Hd in Hq. apply Hs in He. lia.
Qed.

(** The same holds for a swap-with-last deletion: the record that was
    last now sits in the freed slot with the [cache_index] of the end. *)
Lemma swap_delete_breaks_index_sync v p :
  index_synced v -> (S p < List.length v)%nat ->
  ~ index_synced (vector_delete_at_swap v (Z.of_nat p)).
Proof.
  intros Hs Hlt Hd.
  assert (Hl : is_Some (last v)).
  { rewrite last_lookup. apply lookup_lt_is_Some_2. lia. }
  destruct Hl as [x Hx].
  assert (Hq : vector_delete_at_swap v (Z.of_nat p) !! p = Some x).
  { unfold vector_delete_at_swap.
    replace (0 <=? Z.of_nat p) with true by (symmetry; apply Z.leb_le; lia).
    replace (Z.of_nat p <? Z.of_nat (List.length v)) with true
      by (symmetry; apply Z.ltb_lt; lia).
    simpl. rewrite Hx, Nat2Z.id. rewrite lookup_take_lt by lia.
    apply list_lookup_insert_eq. lia. }
  apply Hd in Hq. rewrite last_lookup in Hx. apply Hs in Hx. lia.
Qed.

(** Pushing keeps the synchronisation: [mmap] writes the index
    [vector_push] returns into the new record. *)
Lemma cache_mapping_keeps_index_sync map_ptr length prot s :
  index_synced (g_map_cache_vector s) ->
  index_synced
    (g_map_cache_vector (snd (cache_mapping map_ptr length prot s))).
Proof.
  intros Hs. unfold cache_mapping, vector_push. simpl.
  rewrite alter_app_last. intros p e He.
  destruct (decide (p < List.length (g_map_cache_vector s))%nat).
  - rewrite lookup_app_l in He by lia. now apply Hs.
  - rewrite lookup_app_r in He by lia.
    destruct (p - List.length (g_map_cache_vector s))%nat eqn:Hp;
      simpl in He; [|discriminate].
    injection He as <-. simpl. f_equal. lia.
Qed.

(** ** The other hooks keep [cache_index] in step

    Only the deletion of the exact-match [munmap] loses the
    synchronisation. *)

#[local] Instance index_kept_preorder : PreOrder index_kept.
Proof. split; unfold index_kept; [intros v|intros a b c]; auto. Qed.

Lemma index_kept_alter f p v :
  (forall e, cache_index (f e) = cache_index e) ->
  index_kept v (alter f p v).
Proof.
  intros Hf Hs q e He. destruct (decide (q = p)) as [->|Hne].
  - rewrite list_lookup_alter_eq in He.
    destruct (v !! p) as [e0|] eqn:H0; simpl in He; [|discriminate].
    injection He as <-. rewrite Hf. now apply Hs.
  - rewrite list_lookup_alter_ne in He; auto.
Qed.

Ltac index_steps :=
  stable_steps;
  first [ intros s; unfold index_kept; apply cache_mapping_keeps_index_sync
        | apply stable_modify; intros v; apply index_kept_alter;
          intros e; reflexivity
        | intros v; apply index_kept_alter; intros e; reflexivity ].

Lemma mmap_keeps_index_sync g addr length prot flags fd offset :
  stable index_kept (mmap g addr length prot flags fd offset).
Proof. unfold mmap, real_mmap. cbv zeta. index_steps. Qed.

Lemma mprotect_keeps_index_sync g addr len prot :
  stable index_kept (mprotect g addr len prot).
Proof. unfold mprotect, real_mprotect. cbv zeta. index_steps. Qed.

Lemma mremap_keeps_index_sync g addr old_len new_len flags :
  stable index_kept (mremap g addr old_len new_len flags).
Proof. unfold mremap, real_mremap. index_steps. Qed.

(** ** What the exact-match [munmap] does when [cache_index] is right

    The removal works as long as the [cache_index] of the record is its
    slot. *)

(** With the cache on, an exact-match [munmap] of a record whose
    [cache_index] is its slot unmaps the guard pages that the record
    holds, takes the record out of the vector, and then calls the real
    [munmap], whose result it returns. *)
Lemma munmap_exact_synced g addr length s p e :
  use_mapping_cache (g_mapguard_policy g) = true ->
  vector_for_each is_mapguard_entry_cached addr (g_map_cache_vector s)
    = Some p ->
  g_map_cache_vector s !! p = Some e ->
  start e = addr -> size e = length ->
  cache_index e = Z.of_nat p ->
  exists h r s',
    h = (effects s ++ guard_unmap g (effects s) (guard_bottom e))
        ++ guard_unmap g (effects s ++ guard_unmap g (effects s)
                                         (guard_bottom e)) (guard_top e) /\
    r = g_real_munmap g h addr length /\
    munmap g addr length s = (Ret r, s') /\
    g_map_cache_vector s' = delete p (g_map_cache_vector s) /\
    effects s' = h ++ [EvMunmap addr length r].
Proof.
  intros Hc Hl He Hs Hz Hi.
  destruct (unmap_guard_pages_run g p e s He) as (s1 & E1 & V1 & F1).
  unfold munmap. rewrite Hc.
  unfold bind at 1, lookup_entry. rewrite Hl.
  unfold bind at 1, load. rewrite He. simpl.
  rewrite Hs, Hz, !Z.eqb_refl. simpl.
  unfold bind at 1. rewrite E1.
  unfold bind at 1, delete_entry. unfold real_munmap.
  rewrite call_real_eq. simpl.
  do 3 eexists. split; [reflexivity|]. split; [reflexivity|].
  rewrite F1. split; [reflexivity|]. split; [|reflexivity].
  rewrite V1. unfold vector_delete_at. rewrite Hi.
  assert (Hlt : (p < List.length (g_map_cache_vector s))%nat)
    by (now apply lookup_lt_Some with e).
  replace (0 <=? Z.of_nat p) with true by (symmetry; apply Z.leb_le; lia).
  replace (Z.of_nat p <? Z.of_nat (List.length (g_map_cache_vector s)))
    with true by (symmetry; apply Z.ltb_lt; lia).
  simpl. now rewrite Nat2Z.id.
Qed.

(** So every exact-match [munmap] of a record that is not the last of a
    synchronised vector leaves the vector out of step. *)
Lemma munmap_exact_breaks_index_sync g addr length s p e :
  use_mapping_cache (g_mapguard_policy g) = true ->
  vector_for_each is_mapguard_entry_cached addr (g_map_cache_vector s)
    = Some p ->
  g_map_cache_vector s !! p = Some e ->
  start e = addr -> size e = length ->
  index_synced (g_map_cache_vector s) ->
  (S p < List.length (g_map_cache_vector s))%nat ->
  ~ index_synced (g_map_cache_vector (snd (munmap g addr length s))).
Proof.
  intros Hc Hl He Hs Hz Hsync Hlt.
  destruct (munmap_exact_synced g addr length s p e Hc Hl He Hs Hz
              (Hsync p e He)) as (h & r & s' & _ & _ & -> & Hv & _).
  simpl. rewrite Hv.
  pose proof (delete_breaks_index_sync _ p Hsync Hlt) as Hd.
  unfold vector_delete_at in Hd.
  replace (0 <=? Z.of_nat p) with true in Hd
    by (symmetry; apply Z.leb_le; lia).
  replace (Z.of_nat p <? Z.of_nat (List.length (g_map_cache_vector s)))
    with true in Hd by (symmetry; apply Z.ltb_lt; lia).
  simpl in Hd. now rewrite Nat2Z.id in Hd.
Qed.

(** ** What [mremap] does for a record that has a guard page

    The update of [start] and [size] is there, under the test for a
    guard page: a record with at least one guard field set follows the
    mapping. *)
Lemma mremap_guarded_updates g addr old_len new_len flags s p e :
  use_mapping_cache (g_mapguard_policy g) = true ->
  vector_for_each is_mapguard_entry_cached addr (g_map_cache_vector s)
    = Some p ->
  g_map_cache_vector s !! p = Some e ->
  guard_bottom e <> 0 \/ guard_top e <> 0 ->
  g_real_mremap g (effects s) addr old_len new_len flags <> MAP_FAILED ->
  exists s' e',
    mremap g addr old_len new_len flags s
      = (Ret (g_real_mremap g (effects s) addr old_len new_len flags), s') /\
    g_map_cache_vector s' !! p = Some e' /\
    start e' = g_real_mremap g (effects s) addr old_len new_len flags /\
    size e' = new_len.
Proof.
  intros Hc Hl He Hg Hok.
  set (map_ptr := g_real_mremap g (effects s) addr old_len new_len flags)
    in *.
  unfold mremap. unfold bind at 1, real_mremap. rewrite call_real_eq.
  fold map_ptr. rewrite Hc.
  unfold bind at 1. unfold bind at 1, lookup_entry. simpl. rewrite Hl.
  unfold bind at 1, load. simpl. rewrite He. simpl.
  assert (Hcond : (negb (guard_bottom e =? 0) || negb (guard_top e =? 0))
                  && negb (map_ptr =? MAP_FAILED) = true).
  { apply andb_true_iff. split.
    - apply orb_true_iff. rewrite !negb_true_iff, !Z.eqb_neq. exact Hg.
    - now rewrite negb_true_iff, Z.eqb_neq. }
  rewrite Hcond.
  unfold bind at 1, real_munmap. rewrite call_real_eq.
  unfold bind at 1. rewrite call_real_eq.
  unfold bind at 1, modify. unfold bind at 1. simpl.
  rewrite list_alter_alter_eq.
  match goal with
  | |- context [map_guard_pages g p ?st] => set (s4 := st)
  end.
  destruct (never_aborts_map_guard_pages g p s4) as (a & s5 & E & _).
  pose proof (stable_guards_map_guard_pages g p s4) as [_ Hs].
  rewrite E in *. simpl in Hs.
  destruct (Hs p (set_size new_len (set_start map_ptr e)))
    as (e' & He' & T1 & T2 & _).
  { unfold s4. simpl. now rewrite list_lookup_alter_eq, He. }
  exists s5, e'. repeat split; auto.
Qed.

(** ** The scenarios of the specification, run on the model *)

(** Cache and guard pages on: an 8192-byte read-write mapping is created,
    tracked, and flanked by two guard pages. *)
Example scenario_guarded_create :
  mmap (kernel_ok policy_guard) 0 8192 (Z.lor PROT_READ PROT_WRITE)
       (Z.lor MAP_ANONYMOUS MAP_PRIVATE) (-1) 0 (initial_state 0)
  = (Ret 1048576,
     {| g_map_cache_vector := [guarded_entry];
        errno := 0;
        effects := [EvMmap 0 8192 3 34 (-1) 0 1048576;
                    EvMmap (1048576 - 4096) 4096 PROT_NONE 34 (-1) 0
                      (1048576 - 4096);
                    EvMmap (1048576 + 8192) 4096 PROT_NONE 34 (-1) 0
                      (1048576 + 8192)] |}).
Proof. reflexivity. Qed.

(** Continuing: the exact-match [munmap] unmaps both guard pages, empties
    the cache, and unmaps the region. *)
Example scenario_guarded_remove :
  let g := kernel_ok policy_guard in
  let s := snd (mmap g 0 8192 3 34 (-1) 0 (initial_state 0)) in
  fst (munmap g 1048576 8192 s) = Ret 0 /\
  g_map_cache_vector (snd (munmap g 1048576 8192 s)) = [] /\
  effects (snd (munmap g 1048576 8192 s)) =
    effects s ++ [EvMunmap (1048576 - 4096) 4096 0;
                  EvMunmap (1048576 + 8192) 4096 0;
                  EvMunmap 1048576 8192 0].
Proof. repeat split; reflexivity. Qed.

(** A leading removal of one page: [start] advances, [size] shrinks, and
    the bottom guard page is unmapped and mapped again below the new
    start. *)
Example scenario_leading_removal :
  let g := kernel_ok policy_guard in
  let s := snd (mmap g 0 8192 3 34 (-1) 0 (initial_state 0)) in
  fst (munmap g 1048576 4096 s) = Ret 0 /\
  g_map_cache_vector (snd (munmap g 1048576 4096 s)) =
    [set_guard_bottom 1048576
       (set_size 4096 (set_start (1048576 + 4096) guarded_entry))] /\
  effects (snd (munmap g 1048576 4096 s)) =
    effects s ++ [EvMunmap (1048576 - 4096) 4096 0;
                  EvMunmap 1048576 4096 0;
                  EvMmap 1048576 4096 PROT_NONE 34 (-1) 0 1048576].
Proof. repeat split; reflexivity. Qed.

(** ** C1: write+execute requests under disallow-RWX *)

(** C1 (as amended).  An anonymous [mmap] request ([fd = -1]) whose
    permissions include both write and execute, under disallow-RWX, never
    reaches the real [mmap] and changes nothing: the whole state, cache
    vector and recorded calls included, is the one before the call.  The
    hook returns [MAP_FAILED], unless panic-on-violation is set, in which
    case [MAYBE_PANIC] aborts the process instead of returning. *)
Theorem mmap_rwx_denied (g : globals) (addr length prot flags offset : Z)
    (s : mg_state) :
  disallow_rwx (g_mapguard_policy g) = true ->
  Z.land prot PROT_WRITE <> 0 ->
  Z.land prot PROT_EXEC <> 0 ->
  mmap g addr length prot flags (-1) offset s = (denied g MAP_FAILED, s).
Proof.
  intros Hrwx Hw Hx. unfold mmap, denied, MAYBE_PANIC. simpl.
  rewrite Hrwx, (has_flag_true _ _ Hw), (has_flag_true _ _ Hx). simpl.
  now destruct (panic_on_violation (g_mapguard_policy g)).
Qed.

Lemma mmap_rwx_denied_witness :
  mmap (kernel_ok (policy_rwx false)) 0 4096 (Z.lor PROT_WRITE PROT_EXEC)
       (Z.lor MAP_ANONYMOUS MAP_PRIVATE) (-1) 0 (initial_state 0)
  = (Ret MAP_FAILED, initial_state 0).
Proof.
  apply (mmap_rwx_denied (kernel_ok (policy_rwx false))); vm_compute;
    congruence.
Defined.

(** C1 as stated fails: with disallow-RWX and panic-on-violation both set,
    the write+execute request does not return [MAP_FAILED]; the process is
    aborted. *)
Lemma mmap_rwx_panic_counterexample :
  let g := kernel_ok (policy_rwx true) in
  disallow_rwx (g_mapguard_policy g) = true /\
  Z.land 6 PROT_WRITE <> 0 /\ Z.land 6 PROT_EXEC <> 0 /\
  fst (mmap g 0 4096 6 34 (-1) 0 (initial_state 0)) = Abort /\
  fst (mmap g 0 4096 6 34 (-1) 0 (initial_state 0)) <> Ret MAP_FAILED.
Proof. vm_compute. repeat split; congruence. Qed.

(** ** C2: no executable permission for memory that was ever writable *)

(** C2 (as amended).  With the mapping cache and
    disallow-transition-to-execute on, let [e] be the record the cache
    lookup finds for [addr] (the first record of the store that covers
    [addr]), not execute-only, with write in [immutable_prot].  Then every
    [mprotect] on [addr] that asks for execute is denied, whatever
    [current_prot] is: the real [mprotect] is not called and the cache is
    unchanged.  The hook returns [ERROR], unless panic-on-violation is set,
    in which case the process is aborted. *)
Theorem mprotect_to_x_denied (g : globals) (addr len prot : Z)
    (s : mg_state) (p : nat) (e : mapguard_cache_entry_t) :
  use_mapping_cache (g_mapguard_policy g) = true ->
  disallow_transition_to_x (g_mapguard_policy g) = true ->
  vector_for_each is_mapguard_entry_cached addr (g_map_cache_vector s)
    = Some p ->
  g_map_cache_vector s !! p = Some e ->
  xom_enabled e = 0 ->
  Z.land (immutable_prot e) PROT_WRITE <> 0 ->
  Z.land prot PROT_EXEC <> 0 ->
  fst (mprotect g addr len prot s) = denied g ERROR /\
  g_map_cache_vector (snd (mprotect g addr len prot s))
    = g_map_cache_vector s /\
  effects (snd (mprotect g addr len prot s)) = effects s.
Proof.
  intros Hc Ht Hl He Hxom Hw Hx.
  assert (H : exists s', mprotect g addr len prot s = (denied g ERROR, s') /\
                g_map_cache_vector s' = g_map_cache_vector s /\
                effects s' = effects s).
  { unfold mprotect, denied, MAYBE_PANIC.
    destruct (disallow_rwx (g_mapguard_policy g) && has_flag prot PROT_WRITE
              && has_flag prot PROT_EXEC).
    - exists s. now destruct (panic_on_violation (g_mapguard_policy g)).
    - rewrite Hc. unfold bind, lookup_entry, load. cbv beta.
      rewrite Hl. cbv beta iota. rewrite He. simpl.
      rewrite Hxom, Ht, (has_flag_true _ _ Hw), (has_flag_true _ _ Hx).
      simpl.
      destruct (panic_on_violation (g_mapguard_policy g)); simpl; eauto. }
  destruct H as (s' & -> & Hv & Hf). auto.
Qed.

Lemma mprotect_to_x_denied_witness :
  let g := kernel_ok (policy_to_x false) in
  let s := run g [ReqMmap 0 4096 PROT_WRITE 34 (-1) 0;
                  ReqMprotect 1048576 4096 PROT_READ] (initial_state 0) in
  fst (mprotect g 1048576 4096 PROT_EXEC s) = Ret ERROR /\
  g_map_cache_vector (snd (mprotect g 1048576 4096 PROT_EXEC s))
    = g_map_cache_vector s /\
  effects (snd (mprotect g 1048576 4096 PROT_EXEC s)) = effects s.
Proof.
  intros g s.
  apply (mprotect_to_x_denied g 1048576 4096 PROT_EXEC s 0
           {| start := 1048576; size := 4096; guard_bottom := 0;
              guard_top := 0; immutable_prot := 3; current_prot := 1;
              cache_index := 0; xom_enabled := 0 |});
    vm_compute; congruence.
Defined.

(** C2 as stated fails: with panic-on-violation set as well, the denied
    [mprotect] on a record that was mapped writable does not return the
    failure value; the process is aborted. *)
Lemma mprotect_to_x_panic_counterexample :
  let g := kernel_ok (policy_to_x true) in
  let s := run g [ReqMmap 0 4096 PROT_WRITE 34 (-1) 0] (initial_state 0) in
  use_mapping_cache (g_mapguard_policy g) = true /\
  disallow_transition_to_x (g_mapguard_policy g) = true /\
  g_map_cache_vector s =
    [{| start := 1048576; size := 4096; guard_bottom := 0; guard_top := 0;
        immutable_prot := PROT_WRITE; current_prot := PROT_WRITE;
        cache_index := 0; xom_enabled := 0 |}] /\
  fst (mprotect g 1048576 4096 PROT_EXEC s) = Abort /\
  fst (mprotect g 1048576 4096 PROT_EXEC s) <> Ret ERROR.
Proof. vm_compute. repeat split; congruence. Qed.

(** ** C3: the permission history of a record *)

(** C3.  Along every sequence of [mmap] and [mprotect] requests, from any
    cache in which every record's [immutable_prot] includes its
    [current_prot]: the record in each slot stays in its slot and its
    [immutable_prot] never loses a bit, and at the end (so after every
    operation, the sequence being arbitrary) every tracked record,
    the new ones included, has [current_prot] within [immutable_prot]. *)
Theorem prot_history_monotone (g : globals) (rs : list request)
    (s : mg_state) :
  forallb create_or_reprotect rs = true ->
  prot_inv (g_map_cache_vector s) ->
  prot_inv (g_map_cache_vector (run g rs s)) /\
  grants_kept (g_map_cache_vector s) (g_map_cache_vector (run g rs s)).
Proof.
  intros Hrs Hinv.
  assert (H : prot_step (g_map_cache_vector s)
                (g_map_cache_vector (run g rs s))).
  { apply stable_run; [typeclasses eauto|].
    intros r Hr. rewrite forallb_forall in Hrs.
    assert (Hc : create_or_reprotect r = true)
      by (apply Hrs; now apply list_elem_of_In).
    destruct r; try discriminate; simpl.
    - apply stable_mmap.
    - apply stable_mprotect. }
  destruct H as [H1 H2]. auto.
Qed.

Lemma prot_history_monotone_witness :
  let g := kernel_ok policy_cache in
  let s := run g [ReqMmap 0 8192 (Z.lor PROT_READ PROT_WRITE) 34 (-1) 0]
             (initial_state 0) in
  let rs := [ReqMprotect 1048576 8192 PROT_READ;
             ReqMmap 0 4096 PROT_READ 34 (-1) 0;
             ReqMprotect 1048576 8192 (Z.lor PROT_READ PROT_EXEC)] in
  prot_inv (g_map_cache_vector (run g rs s)) /\
  grants_kept (g_map_cache_vector s) (g_map_cache_vector (run g rs s)).
Proof.
  intros g s rs. apply (prot_history_monotone g rs s).
  - reflexivity.
  - vm_compute. repeat constructor.
Defined.

(** ** C4: exact-match [munmap] *)

(** C4 fails on the code, through a stale [cache_index].  Mappings A
    and B are created and A is removed by an exact-match [munmap]: the
    record of B is now alone in the store, in slot 0, and its
    [cache_index] still says 1.  Mapping C is created: its record is
    pushed to slot 1.  The exact-match [munmap] of B finds the record of
    B in slot 0, calls the real [munmap] on B, and deletes slot
    [cache_index] = 1: the store loses the slot of C, whose mapping is
    still there, and keeps slot 0, whose record the code hands to
    [free].  The first deletion leaves one record, that of B, whether
    the later slot moves down or the last slot is swapped in, and the
    second takes the last slot: compaction and swap-with-last give the
    same stores. *)
Theorem munmap_exact_deletes_other_record :
  let g := kernel_ok policy_cache in
  let s2 := run g [ReqMmap 0 4096 3 34 (-1) 0; ReqMmap 0 4096 3 34 (-1) 0]
              (initial_state 0) in
  let s3 := snd (munmap g 1048576 4096 s2) in
  let s4 := snd (mmap g 0 4096 3 34 (-1) 0 s3) in
  let s5 := snd (munmap g 2097152 4096 s4) in
  g_map_cache_vector s2 = [entry_at 1048576 0; entry_at 2097152 1] /\
  g_map_cache_vector s3 = [entry_at 2097152 1] /\
  vector_delete_at_swap (g_map_cache_vector s2) 0 = g_map_cache_vector s3 /\
  fst (mmap g 0 4096 3 34 (-1) 0 s3) = Ret 3145728 /\
  g_map_cache_vector s4 = [entry_at 2097152 1; entry_at 3145728 1] /\
  vector_for_each is_mapguard_entry_cached 2097152 (g_map_cache_vector s4)
    = Some 0%nat /\
  fst (munmap g 2097152 4096 s4) = Ret 0 /\
  effects s5 = effects s4 ++ [EvMunmap 2097152 4096 0] /\
  g_map_cache_vector s5 = delete 1%nat (g_map_cache_vector s4) /\
  vector_delete_at_swap (g_map_cache_vector s4) 1
    = delete 1%nat (g_map_cache_vector s4).
Proof. cbv zeta. repeat split; reflexivity. Qed.

(** ** C5: [mremap] *)

(** C5 fails on the code.  With the cache on and guard pages off, a
    tracked mapping is moved by a successful [mremap]: the hook returns
    the new address, and the record keeps the old [start] and [size],
    because the update sits under the test for a guard page. *)
Theorem mremap_without_guards_keeps_old_range :
  let g := kernel_ok policy_cache in
  let s := run g [ReqMmap 0 4096 3 34 (-1) 0] (initial_state 0) in
  let s' := snd (mremap g 1048576 4096 8192 1 s) in
  g_map_cache_vector s = [entry_at 1048576 0] /\
  fst (mremap g 1048576 4096 8192 1 s) = Ret 1073741824 /\
  1073741824 <> MAP_FAILED /\
  g_map_cache_vector s' = [entry_at 1048576 0] /\
  vector_for_each is_mapguard_entry_cached 1073741824
    (g_map_cache_vector s') = None.
Proof. cbv zeta. repeat split; try reflexivity. discriminate. Qed.

(** ** C6: [cache_index] and the position in the vector *)

(** C6 fails on the code.  Two mappings are created; their records sit in
    slots 0 and 1 with matching [cache_index].  The first mapping is
    removed by an exact-match [munmap]: [vector_delete_at] moves the
    second record down to slot 0, and nothing in [munmap] writes its
    [cache_index], which still says 1. *)
Theorem munmap_exact_leaves_stale_index :
  let g := kernel_ok policy_cache in
  let s := run g [ReqMmap 0 4096 3 34 (-1) 0; ReqMmap 0 4096 3 34 (-1) 0]
             (initial_state 0) in
  let s' := snd (munmap g 1048576 4096 s) in
  g_map_cache_vector s = [entry_at 1048576 0; entry_at 2097152 1] /\
  index_synced (g_map_cache_vector s) /\
  fst (munmap g 1048576 4096 s) = Ret 0 /\
  g_map_cache_vector s' = [entry_at 2097152 1] /\
  ~ index_synced (g_map_cache_vector s').
Proof.
  cbv zeta. split; [reflexivity|]. split.
  - intros [|[|p]] e; vm_compute; intros [=<-]; reflexivity.
  - split; [reflexivity|]. split; [reflexivity|].
    intros H. specialize (H 0%nat (entry_at 2097152 1) eq_refl).
    discriminate H.
Qed.

(** ** C7: failure of the real primitive *)

(** C7 (as amended).  If the real primitive a hook delegates to fails
    ([MAP_FAILED] from the real [mmap] or [mremap], a non-zero result from
    the real [mprotect] or [munmap]), the cache vector after the call is
    the one before it; in particular a failed real [mmap] inserts no
    record.  This holds for [mmap], [mprotect], [mremap], and for [munmap]
    of an address the cache does not track.  [munmap] of a tracked range
    is left out: it updates or deletes the record before it calls the real
    [munmap] and does not restore it when that call fails. *)
Theorem failed_primitive_keeps_cache (g : globals) (r : request)
    (s : mg_state) :
  munmap_of_tracked g r s = false ->
  real_call_fails g r s ->
  g_map_cache_vector (snd (serve g r s)) = g_map_cache_vector s.
Proof.
  intros Hr Hf. destruct r as [addr length prot flags fd offset
                              | addr length | addr len prot
                              | addr old_len new_len flags];
    simpl in Hr, Hf; simpl.
  - (* mmap *)
    unfold mmap, MAYBE_PANIC. cbv zeta.
    destruct (negb (fd =? -1)); [reflexivity|].
    destruct (disallow_rwx _ && _ && _);
      [destruct (panic_on_violation _); reflexivity|].
    destruct (negb (addr =? 0) && _);
      [destruct (panic_on_violation _); reflexivity|].
    unfold bind at 1, real_mmap. rewrite call_real_eq, Hf.
    reflexivity.
  - (* munmap, nothing tracked at [addr] *)
    unfold munmap.
    destruct (use_mapping_cache _) eqn:Hc; [|reflexivity].
    unfold bind at 1, lookup_entry.
    destruct (vector_for_each _ _ _) as [p|] eqn:Hl; [|reflexivity].
    rewrite ?Hc, ?Hl in Hr. simpl in Hr. discriminate Hr.
  - (* mprotect *)
    assert (Hfin : forall mce s0,
      g_map_cache_vector s0 = g_map_cache_vector s ->
      effects s0 = effects s ->
      g_map_cache_vector
        (snd ((let* r := real_mprotect g addr len prot in
               match mce with
               | Some p =>
                   when (r =? 0)
                     (modify p (fun e => set_immutable_prot
                                  (Z.lor (immutable_prot e) prot) e) >>
                      modify p (set_current_prot prot))
               | None => ret tt
               end >> ret r) s0)) = g_map_cache_vector s).
    { intros mce s0 Hv He. unfold bind at 1, real_mprotect.
      rewrite call_real_eq, He.
      apply Z.eqb_neq in Hf. destruct mce; unfold bind; simpl;
        rewrite ?Hf; simpl; exact Hv. }
    unfold mprotect, MAYBE_PANIC. cbv zeta.
    destruct (disallow_rwx _ && _ && _);
      [destruct (panic_on_violation _); reflexivity|].
    destruct (use_mapping_cache _); [|now apply (Hfin None)].
    unfold bind at 1, lookup_entry.
    destruct (vector_for_each _ _ _) as [p|]; [|now apply (Hfin None)].
    unfold bind at 1, load.
    destruct (xom_enabled _ =? 0); [|now apply (Hfin (Some p))].
    destruct (disallow_transition_to_x _ && _ && _);
      [destruct (panic_on_violation _); reflexivity|].
    destruct (disallow_transition_from_x _ && _ && _);
      [destruct (panic_on_violation _); reflexivity|].
    now apply (Hfin (Some p)).
  - (* mremap *)
    unfold mremap. unfold bind at 1, real_mremap.
    rewrite call_real_eq, Hf.
    destruct (use_mapping_cache _); [|reflexivity].
    unfold bind at 1. unfold bind at 1, lookup_entry.
    destruct (vector_for_each _ _ _) as [p|]; [|reflexivity].
    unfold bind at 1, load.
    replace (MAP_FAILED =? MAP_FAILED) with true by reflexivity.
    rewrite andb_false_r. reflexivity.
Qed.

Lemma failed_primitive_keeps_cache_witness :
  let g := kernel_fail policy_guard in
  g_map_cache_vector
    (snd (serve g (ReqMmap 0 4096 PROT_READ 34 (-1) 0) (initial_state 0)))
  = [].
Proof.
  intros g.
  apply (failed_primitive_keeps_cache g (ReqMmap 0 4096 PROT_READ 34 (-1) 0)
           (initial_state 0)); reflexivity.
Defined.

(** C7 as stated fails for [munmap]: the real [munmap] fails, and yet a
    leading removal has advanced [start] and shrunk [size], and an exact
    removal has deleted the record. *)
Lemma failed_munmap_counterexample :
  let g := kernel_no_munmap policy_cache in
  let s := run g [ReqMmap 0 8192 PROT_READ 34 (-1) 0] (initial_state 0) in
  real_call_fails g (ReqMunmap 1048576 4096) s /\
  real_call_fails g (ReqMunmap 1048576 8192) s /\
  (exists e, g_map_cache_vector s = [e] /\
             start e = 1048576 /\ size e = 8192) /\
  fst (munmap g 1048576 4096 s) = Ret (-1) /\
  (exists e', g_map_cache_vector (snd (munmap g 1048576 4096 s)) = [e'] /\
              start e' = 1048576 + 4096 /\ size e' = 4096) /\
  fst (munmap g 1048576 8192 s) = Ret (-1) /\
  g_map_cache_vector (snd (munmap g 1048576 8192 s)) = [].
Proof.
  vm_compute. repeat split; eauto; discriminate.
Qed.

(** ** C8: a guard page that cannot be placed *)

(** C8 (as amended).  A guard-page placement whose real [mmap] fails
    does not abort and is not undone; it stores what the real [mmap]
    returned, [MAP_FAILED], in the guard field of the record, so the field
    is not NULL afterwards (first and second part, for the bottom and the
    top page).  And an anonymous [mmap] that the policy allows and whose
    real [mmap] succeeds returns the mapped address whatever the real
    calls for the guard pages return, with the new record kept at the end
    of the cache when the cache is on (third part). *)
Theorem guard_failure_is_not_propagated :
  (forall g p e s,
     g_map_cache_vector s !! p = Some e ->
     g_real_mmap g (effects s)
       (get_base_page g (get_base_page g (wrap64 (start e - 1))))
       (g_page_size g) PROT_NONE (Z.lor MAP_ANONYMOUS MAP_PRIVATE) (-1) 0
       = MAP_FAILED ->
     fst (map_bottom_guard_page g (Some p) s) = Ret tt /\
     g_map_cache_vector (snd (map_bottom_guard_page g (Some p) s)) !! p
       = Some (set_guard_bottom MAP_FAILED e) /\
     guard_bottom (set_guard_bottom MAP_FAILED e) <> 0) /\
  (forall g p e s,
     g_map_cache_vector s !! p = Some e ->
     g_real_mmap g (effects s)
       (get_base_page g (ROUND_UP_PAGE g (wrap64 (start e + size e))))
       (g_page_size g) PROT_NONE (Z.lor MAP_ANONYMOUS MAP_PRIVATE) (-1) 0
       = MAP_FAILED ->
     fst (map_top_guard_page g (Some p) s) = Ret tt /\
     g_map_cache_vector (snd (map_top_guard_page g (Some p) s)) !! p
       = Some (set_guard_top MAP_FAILED e) /\
     guard_top (set_guard_top MAP_FAILED e) <> 0) /\
  (forall g addr length prot flags offset s,
     mmap_allowed g addr prot ->
     g_real_mmap g (effects s) addr length prot flags (-1) offset
       <> MAP_FAILED ->
     fst (mmap g addr length prot flags (-1) offset s)
       = Ret (g_real_mmap g (effects s) addr length prot flags (-1) offset)
     /\
     (use_mapping_cache (g_mapguard_policy g) = true ->
      exists e,
        g_map_cache_vector (snd (mmap g addr length prot flags (-1) offset s))
          !! List.length (g_map_cache_vector s) = Some e /\
        start e
          = g_real_mmap g (effects s) addr length prot flags (-1) offset /\
        size e = length /\
        List.length
          (g_map_cache_vector
             (snd (mmap g addr length prot flags (-1) offset s)))
          = S (List.length (g_map_cache_vector s)))).
Proof.
  split; [|split].
  - intros g p e s He Hf.
    unfold map_bottom_guard_page, bind, load, map_guard_page, real_mmap.
    rewrite call_real_eq, He. simpl. rewrite Hf.
    rewrite list_lookup_alter_eq, He. simpl. repeat split. discriminate.
  - intros g p e s He Hf.
    unfold map_top_guard_page, bind, load, map_guard_page, real_mmap.
    rewrite call_real_eq, He. simpl. rewrite Hf.
    rewrite list_lookup_alter_eq, He. simpl. repeat split. discriminate.
  - intros g addr length prot flags offset s [Hrwx Hstatic] Hok.
    set (map_ptr := g_real_mmap g (effects s) addr length prot flags (-1)
                      offset) in *.
    assert (H : exists s3,
      mmap g addr length prot flags (-1) offset s = (Ret map_ptr, s3) /\
      (use_mapping_cache (g_mapguard_policy g) = true ->
       exists e,
         g_map_cache_vector s3 !! List.length (g_map_cache_vector s)
           = Some e /\
         start e = map_ptr /\ size e = length /\
         List.length (g_map_cache_vector s3)
           = S (List.length (g_map_cache_vector s)))).
    { unfold mmap. cbv zeta. simpl (negb (-1 =? -1)). cbv iota.
      rewrite Hrwx, Hstatic.
      unfold bind at 1, real_mmap. rewrite call_real_eq. fold map_ptr.
      apply Z.eqb_neq in Hok. rewrite Hok.
      set (s1 := {| g_map_cache_vector := g_map_cache_vector s;
                    errno := _; effects := _ |}).
      destruct (use_mapping_cache (g_mapguard_policy g)) eqn:Hc.
      + unfold bind at 1, cache_mapping, vector_push. simpl.
        rewrite alter_app_last.
        set (e0 := set_cache_index _ _).
        set (s2 := with_vector _ _).
        set (rest := (when _ _ >> _)).
        assert (Hy : yields rest (fun r => r = map_ptr))
          by (unfold rest; yields_steps; apply never_aborts_map_guard_pages).
        assert (Hs : stable guards_only rest).
        { unfold rest. stable_steps; apply stable_modify; intros v;
            apply guards_only_alter; intros e; repeat split. }
        destruct (Hy s2) as (a & s3 & E & ->).
        specialize (Hs s2). rewrite E in *. simpl in Hs.
        exists s3. split; [reflexivity|]. intros _.
        destruct Hs as [Hl Hs].
        destruct (Hs (List.length (g_map_cache_vector s)) e0)
          as (e & He & T).
        { rewrite lookup_app_r by lia. now rewrite Nat.sub_diag. }
        exists e. split; [exact He|].
        destruct T as (T1 & T2 & _). split; [now rewrite T1|].
        split; [now rewrite T2|].
        rewrite Hl, length_app. simpl. lia.
      + unfold bind at 1. simpl.
        set (rest := (when _ _ >> _)).
        assert (Hy : yields rest (fun r => r = map_ptr))
          by (unfold rest; yields_steps).
        destruct (Hy s1) as (a & s3 & E & ->).
        exists s3. split; [exact E|discriminate]. }
    destruct H as (s3 & -> & H). simpl. split; [reflexivity|exact H].
Qed.

Lemma guard_failure_is_not_propagated_witness :
  let g := kernel_no_guard policy_guard in
  fst (mmap g 0 8192 3 34 (-1) 0 (initial_state 0)) = Ret 1048576 /\
  exists e,
    g_map_cache_vector (snd (mmap g 0 8192 3 34 (-1) 0 (initial_state 0)))
      !! 0%nat = Some e /\
    start e = 1048576 /\ size e = 8192 /\
    List.length
      (g_map_cache_vector (snd (mmap g 0 8192 3 34 (-1) 0 (initial_state 0))))
      = 1%nat.
Proof.
  intros g.
  destruct guard_failure_is_not_propagated as (_ & _ & H).
  destruct (H g 0 8192 3 34 0 (initial_state 0)) as [Hr Hc].
  - split; reflexivity.
  - vm_compute. discriminate.
  - split; [exact Hr|]. apply Hc. reflexivity.
Defined.

(** C8 as stated fails: the real [mmap] refuses both guard pages of a new
    mapping; [mmap] succeeds, and the guard fields of the record are not
    NULL but [MAP_FAILED], which [unmap_guard_pages] then takes for the
    addresses of two guard pages and hands to the real [munmap]. *)
Lemma failed_guard_counterexample :
  let g := kernel_no_guard policy_guard in
  let r := mmap g 0 8192 3 34 (-1) 0 (initial_state 0) in
  fst r = Ret 1048576 /\
  effects (snd r) =
    [EvMmap 0 8192 3 34 (-1) 0 1048576;
     EvMmap 1044480 4096 0 34 (-1) 0 MAP_FAILED;
     EvMmap 1056768 4096 0 34 (-1) 0 MAP_FAILED] /\
  (exists e, g_map_cache_vector (snd r) = [e] /\
             guard_bottom e = MAP_FAILED /\ guard_top e = MAP_FAILED /\
             guard_bottom e <> 0 /\ guard_top e <> 0) /\
  effects (snd (unmap_guard_pages g 0 (snd r))) =
    effects (snd r) ++
    [EvMunmap MAP_FAILED 4096 0; EvMunmap MAP_FAILED 4096 0].
Proof.
  vm_compute. repeat split. eexists. repeat split; discriminate.
Qed.

(** ** C9: removing a guard page *)

(** C9 (as amended).  [unmap_top_guard_page] and [unmap_bottom_guard_page]
    call the real [munmap] on the guard page when the guard field of the
    record is not NULL, and leave the record as it is, guard field
    included: the field is not cleared.  When the guard field is NULL
    they change nothing at all and call nothing. *)
Theorem unmap_guard_page_keeps_field (g : globals) (p : nat)
    (e : mapguard_cache_entry_t) (s : mg_state) :
  g_map_cache_vector s !! p = Some e ->
  (fst (unmap_top_guard_page g p s) = Ret tt /\
   g_map_cache_vector (snd (unmap_top_guard_page g p s))
     = g_map_cache_vector s /\
   effects (snd (unmap_top_guard_page g p s)) =
     effects s ++
     (if guard_top e =? 0 then []
      else [EvMunmap (guard_top e) (g_page_size g)
              (g_real_munmap g (effects s) (guard_top e) (g_page_size g))]) /\
   (guard_top e = 0 -> snd (unmap_top_guard_page g p s) = s)) /\
  (fst (unmap_bottom_guard_page g p s) = Ret tt /\
   g_map_cache_vector (snd (unmap_bottom_guard_page g p s))
     = g_map_cache_vector s /\
   effects (snd (unmap_bottom_guard_page g p s)) =
     effects s ++
     (if guard_bottom e =? 0 then []
      else [EvMunmap (guard_bottom e) (g_page_size g)
              (g_real_munmap g (effects s) (guard_bottom e)
                 (g_page_size g))]) /\
   (guard_bottom e = 0 -> snd (unmap_bottom_guard_page g p s) = s)).
Proof.
  intros He. split.
  - unfold unmap_top_guard_page, bind, load. rewrite He. simpl.
    destruct (guard_top e =? 0) eqn:Hg; simpl.
    + rewrite app_nil_r. repeat split; auto.
    + repeat split; auto. intros H. apply Z.eqb_neq in Hg. contradiction.
  - unfold unmap_bottom_guard_page, bind, load. rewrite He. simpl.
    destruct (guard_bottom e =? 0) eqn:Hg; simpl.
    + rewrite app_nil_r. repeat split; auto.
    + repeat split; auto. intros H. apply Z.eqb_neq in Hg. contradiction.
Qed.

Lemma unmap_guard_page_keeps_field_witness :
  let g := kernel_ok policy_guard in
  let s := run g [ReqMmap 0 8192 3 34 (-1) 0] (initial_state 0) in
  g_map_cache_vector (snd (unmap_top_guard_page g 0 s)) = [guarded_entry] /\
  g_map_cache_vector (snd (unmap_bottom_guard_page g 0 s)) = [guarded_entry].
Proof.
  intros g s.
  destruct (unmap_guard_page_keeps_field g 0 guarded_entry s eq_refl)
    as [(_ & Ht & _) (_ & Hb & _)].
  split; [exact Ht | exact Hb].
Defined.

(** C9 as stated fails: after [unmap_top_guard_page] and
    [unmap_bottom_guard_page] have unmapped the guard pages of a record,
    its guard fields still hold the addresses of the pages. *)
Lemma unmap_guard_page_counterexample :
  let g := kernel_ok policy_guard in
  let s := run g [ReqMmap 0 8192 3 34 (-1) 0] (initial_state 0) in
  let s1 := snd (unmap_top_guard_page g 0 s) in
  let s2 := snd (unmap_bottom_guard_page g 0 s1) in
  g_map_cache_vector s = [guarded_entry] /\
  effects s2 = effects s ++ [EvMunmap 1056768 4096 0; EvMunmap 1044480 4096 0]
  /\ (exists e, g_map_cache_vector s2 !! 0%nat = Some e /\
                guard_top e = 1056768 /\ guard_top e <> 0 /\
                guard_bottom e = 1044480 /\ guard_bottom e <> 0).
Proof.
  vm_compute. repeat split. eexists. repeat split; congruence.
Qed.

(** ** C10: a denied [mprotect] *)

(** C10 (as amended).  An [mprotect] request that a policy rule denies
    never reaches the real [mprotect] and leaves the cache, so the
    [current_prot] and [immutable_prot] of every record, as it was.  The
    hook returns [ERROR], unless panic-on-violation is set, in which case
    the process is aborted.  When the hook returns and the denial comes
    from a transition rule, not from Disallow-RWX, errno is [EINVAL]. *)
Theorem mprotect_denial (g : globals) (addr len prot : Z) (s : mg_state) :
  mprotect_violation g addr prot s ->
  fst (mprotect g addr len prot s) = denied g ERROR /\
  g_map_cache_vector (snd (mprotect g addr len prot s))
    = g_map_cache_vector s /\
  effects (snd (mprotect g addr len prot s)) = effects s /\
  (panic_on_violation (g_mapguard_policy g) = false ->
   ~ rwx_violation g prot ->
   errno (snd (mprotect g addr len prot s)) = EINVAL).
Proof.
  intros Hv.
  assert (H : exists s',
    mprotect g addr len prot s = (denied g ERROR, s') /\
    g_map_cache_vector s' = g_map_cache_vector s /\
    effects s' = effects s /\
    (panic_on_violation (g_mapguard_policy g) = false ->
     ~ rwx_violation g prot -> errno s' = EINVAL)).
  { unfold mprotect, denied, MAYBE_PANIC. cbv zeta.
    destruct (disallow_rwx (g_mapguard_policy g) && has_flag prot PROT_WRITE
              && has_flag prot PROT_EXEC) eqn:Hrwx.
    - apply rwx_violation_iff in Hrwx. exists s.
      destruct (panic_on_violation _); simpl; repeat split; tauto.
    - destruct Hv as [Hv|(Hc & p & e & Hl & He & Hxom & Ht)].
      { apply rwx_violation_iff in Hv. congruence. }
      rewrite Hc. unfold bind, lookup_entry, load. cbv beta.
      rewrite Hl. cbv beta iota. rewrite He. simpl. rewrite Hxom. simpl.
      destruct (disallow_transition_to_x (g_mapguard_policy g)
                && has_flag prot PROT_EXEC
                && has_flag (immutable_prot e) PROT_WRITE) eqn:Hto.
      + destruct (panic_on_violation _); simpl; eauto 10.
        exists s. repeat split; auto. discriminate.
      + destruct Ht as [(T1 & T2 & T3)|(T1 & T2 & T3)].
        * rewrite T1 in Hto. apply has_flag_iff in T2, T3.
          rewrite T2, T3 in Hto. discriminate.
        * apply has_flag_iff in T2, T3. rewrite T1, T2, T3. simpl.
          destruct (panic_on_violation _); simpl; eauto 10.
          exists s. repeat split; auto. discriminate. }
  destruct H as (s' & -> & H1 & H2 & H3). auto.
Qed.

Lemma mprotect_denial_witness :
  let g := kernel_ok (policy_to_x false) in
  let s := run g [ReqMmap 0 4096 3 34 (-1) 0] (initial_state 0) in
  fst (mprotect g 1048576 4096 PROT_EXEC s) = Ret ERROR /\
  g_map_cache_vector (snd (mprotect g 1048576 4096 PROT_EXEC s))
    = g_map_cache_vector s /\
  effects (snd (mprotect g 1048576 4096 PROT_EXEC s)) = effects s /\
  errno (snd (mprotect g 1048576 4096 PROT_EXEC s)) = EINVAL.
Proof.
  intros g s.
  destruct (mprotect_denial g 1048576 4096 PROT_EXEC s)
    as (H1 & H2 & H3 & H4).
  - right. split; [reflexivity|].
    exists 0%nat, (entry_at 1048576 0).
    repeat split; try reflexivity.
    left. repeat split; vm_compute; discriminate.
  - split; [exact H1|]. split; [exact H2|]. split; [exact H3|].
    apply H4; [reflexivity|]. intros (Hd & _). discriminate Hd.
Defined.

(** C10 as stated fails twice.  With panic-on-violation set, the denied
    request does not return: the process is aborted.  And a request that
    Disallow-RWX denies returns [ERROR] with errno untouched (here still
    0), not [EINVAL]. *)
Lemma mprotect_denial_counterexample :
  (let g := kernel_ok (policy_to_x true) in
   let s := run g [ReqMmap 0 4096 PROT_WRITE 34 (-1) 0] (initial_state 0) in
   mprotect_violation g 1048576 PROT_EXEC s /\
   fst (mprotect g 1048576 4096 PROT_EXEC s) = Abort) /\
  (let g := kernel_ok (policy_rwx false) in
   let s := run g [ReqMmap 0 4096 PROT_READ 34 (-1) 0] (initial_state 0) in
   mprotect_violation g 1048576 (Z.lor PROT_WRITE PROT_EXEC) s /\
   errno s = 0 /\
   fst (mprotect g 1048576 4096 (Z.lor PROT_WRITE PROT_EXEC) s)
     = Ret ERROR /\
   errno (snd (mprotect g 1048576 4096 (Z.lor PROT_WRITE PROT_EXEC) s)) = 0
   /\
   errno (snd (mprotect g 1048576 4096 (Z.lor PROT_WRITE PROT_EXEC) s))
     <> EINVAL).
Proof.
  split.
  - cbv zeta. split; [|reflexivity].
    right. split; [reflexivity|].
    exists 0%nat,
      {| start := 1048576; size := 4096; guard_bottom := 0; guard_top := 0;
         immutable_prot := 2; current_prot := 2; cache_index := 0;
         xom_enabled := 0 |}.
    repeat split; try reflexivity.
    left. repeat split; try (vm_compute; congruence).
  - cbv zeta. split.
    + left. repeat split; vm_compute; congruence.
    + repeat split; try reflexivity. vm_compute. congruence.
Qed.

(** * Further properties of the code *)

(** ** Page arithmetic *)

Lemma land_wrap64_r a x :
  0 <= a < 2 ^ 64 -> Z.land a (wrap64 x) = Z.land a x.
Proof.
  intros Ha. unfold wrap64. rewrite <- (Z.land_ones x 64) by lia.
  rewrite (Z.land_comm x), Z.land_assoc, Z.land_ones by lia.
  now rewrite Z.mod_small.
Qed.

Lemma get_base_page_pow2 g k addr :
  0 <= k < 64 -> g_page_size g = 2 ^ k -> 0 <= addr < 2 ^ 64 ->
  get_base_page g addr = addr - addr mod 2 ^ k.
Proof.
  intros Hk Hps Ha. unfold get_base_page. rewrite Hps.
  assert (Hp : 0 < 2 ^ k < 2 ^ 64).
  { split; [apply Z.pow_pos_nonneg; lia|].
    apply Z.pow_lt_mono_r; lia. }
  rewrite land_wrap64_r by exact Ha.
  unfold wrap64 at 1. rewrite Z.mod_small by lia.
  replace (2 ^ k - 1) with (Z.ones k) by (rewrite Z.ones_equiv; lia).
  rewrite <- Z.ldiff_land, Z.ldiff_ones_r by lia.
  rewrite Z.shiftr_div_pow2, Z.shiftl_mul_pow2 by lia.
  pose proof (Z.div_mod addr (2 ^ k) ltac:(lia)). lia.
Qed.

Lemma get_base_page_idem g k addr :
  0 <= k < 64 -> g_page_size g = 2 ^ k -> 0 <= addr < 2 ^ 64 ->
  get_base_page g (get_base_page g addr) = get_base_page g addr.
Proof.
  intros Hk Hps Ha.
  assert (Hp : 0 < 2 ^ k) by (apply Z.pow_pos_nonneg; lia).
  pose proof (Z.mod_pos_bound addr (2 ^ k) Hp) as Hm.
  pose proof (Z.mod_le addr (2 ^ k) ltac:(lia) Hp) as Hle.
  rewrite (get_base_page_pow2 g k (get_base_page g addr)); try assumption;
    rewrite (get_base_page_pow2 g k addr) by assumption; [|lia].
  replace (addr - addr mod 2 ^ k) with ((addr / 2 ^ k) * 2 ^ k)
    by (pose proof (Z.div_mod addr (2 ^ k) ltac:(lia)); lia).
  rewrite Z.mod_mul by lia. lia.
Qed.

(** [get_base_page], for a page size that is a power of two below
    [2^64]: the address of the page that holds [addr], that is, the
    largest multiple of the page size that is not above [addr]. *)
Theorem get_base_page_is_page_start (g : globals) (k addr : Z) :
  0 <= k < 64 -> g_page_size g = 2 ^ k -> 0 <= addr < 2 ^ 64 ->
  get_base_page g addr mod g_page_size g = 0 /\
  get_base_page g addr <= addr < get_base_page g addr + g_page_size g /\
  get_base_page g (get_base_page g addr) = get_base_page g addr.
Proof.
  intros Hk Hps Ha.
  assert (Hp : 0 < 2 ^ k) by (apply Z.pow_pos_nonneg; lia).
  pose proof (Z.mod_pos_bound addr (2 ^ k) Hp) as Hm.
  assert (Hb : get_base_page g addr = 2 ^ k * (addr / 2 ^ k)).
  { rewrite (get_base_page_pow2 g k) by assumption.
    pose proof (Z.div_mod addr (2 ^ k) ltac:(lia)). lia. }
  assert (Hz : get_base_page g addr mod 2 ^ k = 0).
  { rewrite Hb, Z.mul_comm. apply Z.mod_mul. lia. }
  split; [now rewrite Hps|]. split.
  - rewrite Hps, (get_base_page_pow2 g k) by assumption. lia.
  - rewrite (get_base_page_pow2 g k (get_base_page g addr)); try assumption.
    + rewrite Hz. lia.
    + rewrite (get_base_page_pow2 g k addr) by assumption.
      pose proof (Z.mod_le addr (2 ^ k)). lia.
Qed.

Lemma get_base_page_is_page_start_witness :
  get_base_page (kernel_ok policy_guard) 1052671 mod 4096 = 0 /\
  get_base_page (kernel_ok policy_guard) 1052671 <= 1052671
    < get_base_page (kernel_ok policy_guard) 1052671 + 4096 /\
  get_base_page (kernel_ok policy_guard)
    (get_base_page (kernel_ok policy_guard) 1052671)
  = get_base_page (kernel_ok policy_guard) 1052671.
Proof.
  apply (get_base_page_is_page_start (kernel_ok policy_guard) 12 1052671);
    [lia | reflexivity | lia].
Defined.

Lemma ROUND_UP_PAGE_eq g N :
  0 < g_page_size g -> 0 <= N -> N + g_page_size g <= 2 ^ 64 ->
  ROUND_UP_PAGE g N = page_ceiling (g_page_size g) N.
Proof.
  intros Hps HN Hb. unfold ROUND_UP_PAGE, page_ceiling.
  set (ps := g_page_size g) in *.
  assert (H1 : wrap64 (wrap64 (N + ps) - 1) = N + ps - 1).
  { unfold wrap64. rewrite Zminus_mod_idemp_l. apply Z.mod_small. lia. }
  rewrite H1. unfold wrap64. apply Z.mod_small.
  assert (Hq : 0 <= (N + ps - 1) / ps) by (apply Z.div_pos; lia).
  pose proof (Z.mul_div_le (N + ps - 1) ps Hps).
  split; [apply Z.mul_nonneg_nonneg; lia|]. lia.
Qed.

Lemma ROUND_UP_PAGE_is_next_boundary_aux g N :
  0 < g_page_size g -> 0 <= N -> N + g_page_size g <= 2 ^ 64 ->
  page_ceiling (g_page_size g) N mod g_page_size g = 0 /\
  N <= page_ceiling (g_page_size g) N < N + g_page_size g.
Proof.
  intros Hps HN Hb. unfold page_ceiling. set (ps := g_page_size g) in *.
  pose proof (Z.div_mod (N + ps - 1) ps ltac:(lia)) as Hd.
  pose proof (Z.mod_pos_bound (N + ps - 1) ps Hps) as Hm.
  split; [apply Z.mod_mul; lia|]. lia.
Qed.

(** [ROUND_UP_PAGE], when [N] plus a page does not leave the address
    space: the first multiple of the page size at or after [N]. *)
Theorem ROUND_UP_PAGE_is_next_boundary (g : globals) (N : Z) :
  0 < g_page_size g -> 0 <= N -> N + g_page_size g <= 2 ^ 64 ->
  ROUND_UP_PAGE g N mod g_page_size g = 0 /\
  N <= ROUND_UP_PAGE g N < N + g_page_size g /\
  (N mod g_page_size g = 0 -> ROUND_UP_PAGE g N = N).
Proof.
  intros Hps HN Hb. rewrite ROUND_UP_PAGE_eq by assumption.
  unfold page_ceiling. set (ps := g_page_size g) in *.
  pose proof (Z.div_mod (N + ps - 1) ps ltac:(lia)) as Hd.
  pose proof (Z.mod_pos_bound (N + ps - 1) ps Hps) as Hm.
  split; [apply Z.mod_mul; lia|]. split; [lia|].
  intros Hal.
  assert (HN' : N = ps * (N / ps))
    by (pose proof (Z.div_mod N ps ltac:(lia)); lia).
  replace (N + ps - 1) with ((ps - 1) + (N / ps) * ps) by lia.
  rewrite Z.div_add by lia. rewrite Z.div_small by lia. lia.
Qed.

Lemma ROUND_UP_PAGE_is_next_boundary_witness :
  ROUND_UP_PAGE (kernel_ok policy_guard) 1056769 mod 4096 = 0 /\
  1056769 <= ROUND_UP_PAGE (kernel_ok policy_guard) 1056769
    < 1056769 + 4096 /\
  (1056769 mod 4096 = 0 ->
   ROUND_UP_PAGE (kernel_ok policy_guard) 1056769 = 1056769).
Proof.
  apply (ROUND_UP_PAGE_is_next_boundary (kernel_ok policy_guard) 1056769);
    simpl; lia.
Defined.

(** ** The range a record covers *)

(** [is_mapguard_entry_cached], for a record whose range does not wrap:
    the record covers its start, whatever its size, and the addresses
    strictly between its start and its end; the end is not covered. *)
Theorem entry_covers_its_range (e : mapguard_cache_entry_t) (a : Z) :
  range_ok e ->
  (is_mapguard_entry_cached e a = true <->
   a = start e \/ start e < a < start e + size e).
Proof.
  intros (Hs & Hz & Hb). unfold is_mapguard_entry_cached, wrap64.
  rewrite Z.mod_small by lia.
  destruct (Z.eqb_spec (start e) a) as [->|Hne].
  - split; auto.
  - destruct (Z.gtb_spec a (start e)), (Z.gtb_spec (start e + size e) a);
      simpl; split; try discriminate; try lia; auto.
Qed.

Lemma entry_covers_its_range_witness :
  is_mapguard_entry_cached guarded_entry 1056767 = true <->
  1056767 = start guarded_entry \/
  start guarded_entry < 1056767 < start guarded_entry + size guarded_entry.
Proof.
  apply (entry_covers_its_range guarded_entry 1056767).
  unfold range_ok. simpl. lia.
Defined.

(** ** The constructor *)

Lemma to_int32_zero z : to_int32 z = 0 <-> z mod 2 ^ 32 = 0.
Proof.
  unfold to_int32.
  assert (H : (z + 2 ^ 31) mod 2 ^ 32 - 2 ^ 31 = 0 <->
              (z + 2 ^ 31) mod 2 ^ 32 = 2 ^ 31) by lia.
  rewrite H. clear H.
  pose proof (Z.div_mod z (2 ^ 32) ltac:(lia)) as Hd.
  pose proof (Z.mod_pos_bound z (2 ^ 32)) as Hm.
  split; intros H.
  - pose proof (Z.div_mod (z + 2 ^ 31) (2 ^ 32) ltac:(lia)) as Hd'.
    rewrite H in Hd'.
    assert (E : z = 2 ^ 32 * ((z + 2 ^ 31) / 2 ^ 32)) by lia.
    rewrite E, Z.mul_comm. apply Z.mod_mul. lia.
  - replace (z + 2 ^ 31) with (2 ^ 31 + (z / 2 ^ 32) * 2 ^ 32) by lia.
    rewrite Z.mod_add by lia. apply Z.mod_small. lia.
Qed.

Lemma ENV_TO_INT_true env name config :
  ENV_TO_INT env name config = true <->
  config = true \/ switch_set env name.
Proof.
  unfold ENV_TO_INT, env_to_int, switch_set.
  destruct (getenv env name) as [v|]; simpl.
  - destruct (Z.eqb_spec (to_int32 (strtoul env v)) 0) as [E|E]; simpl.
    + apply to_int32_zero in E. split; auto.
      intros [H|(v' & [= <-] & H)]; auto; contradiction.
    + rewrite to_int32_zero in E. split; auto. intros _. right. eauto.
  - split; auto. intros [H|(v & H & _)]; auto; discriminate.
Qed.

(** [mapguard_ctor] and [env_to_int]: a switch is on after the constructor
    exactly when it was on before or its environment variable is set to a
    value that [strtoul] reads as a number which is not a multiple of
    [2^32] (the [unsigned long] is cut to an [int32_t]: a value such as
    4294967296 leaves the switch off); the constructor never turns a
    switch off, takes the page size from [getpagesize], and leaves the
    cache empty. *)
Theorem ctor_switches (env : environment) (g : globals) (s : mg_state) :
  let pol := g_mapguard_policy g in
  let pol' := g_mapguard_policy (fst (mapguard_ctor env g s)) in
  (disallow_rwx pol' = true <->
   disallow_rwx pol = true \/ switch_set env MG_DISALLOW_RWX) /\
  (disallow_transition_to_x pol' = true <->
   disallow_transition_to_x pol = true \/
   switch_set env MG_DISALLOW_TRANSITION_TO_X) /\
  (disallow_transition_from_x pol' = true <->
   disallow_transition_from_x pol = true \/
   switch_set env MG_DISALLOW_TRANSITION_FROM_X) /\
  (disallow_static_address pol' = true <->
   disallow_static_address pol = true \/
   switch_set env MG_DISALLOW_STATIC_ADDRESS) /\
  (enable_guard_pages pol' = true <->
   enable_guard_pages pol = true \/ switch_set env MG_ENABLE_GUARD_PAGES) /\
  (panic_on_violation pol' = true <->
   panic_on_violation pol = true \/ switch_set env MG_PANIC_ON_VIOLATION) /\
  (poison_on_allocation pol' = true <->
   poison_on_allocation pol = true \/
   switch_set env MG_POISON_ON_ALLOCATION) /\
  (use_mapping_cache pol' = true <->
   use_mapping_cache pol = true \/ switch_set env MG_USE_MAPPING_CACHE) /\
  g_page_size (fst (mapguard_ctor env g s)) = getpagesize env /\
  g_map_cache_vector (snd (mapguard_ctor env g s)) = [].
Proof.
  cbv zeta. simpl. repeat split; try apply ENV_TO_INT_true;
    try (intros H; apply ENV_TO_INT_true; exact H).
Qed.

Lemma ctor_switches_witness :
  let g' := fst (mapguard_ctor env_example (kernel_ok policy_zero)
                   (initial_state 0)) in
  use_mapping_cache (g_mapguard_policy g') = true /\
  disallow_rwx (g_mapguard_policy g') <> true.
Proof.
  destruct (ctor_switches env_example (kernel_ok policy_zero)
              (initial_state 0))
    as (Hrwx & _ & _ & _ & _ & _ & _ & Hcache & _).
  split.
  - apply Hcache. right. exists "1"%string. split; [reflexivity|].
    vm_compute. discriminate.
  - intros H. apply Hrwx in H as [H|(v & Hv & Hne)]; [discriminate|].
    vm_compute in Hv. injection Hv as <-. vm_compute in Hne. congruence.
Defined.

(** ** Requests the policy does not look at, or refuses *)

(** [mmap] of a file ([fd] is not -1) is the real [mmap]: whatever the
    switches say, write+execute and a fixed address included, the hook
    makes the one real call, returns its result and leaves the cache
    alone. *)
Theorem mmap_file_backed_delegates (g : globals)
    (addr length prot flags fd offset : Z) (s : mg_state) :
  fd <> -1 ->
  fst (mmap g addr length prot flags fd offset s)
    = Ret (g_real_mmap g (effects s) addr length prot flags fd offset) /\
  g_map_cache_vector (snd (mmap g addr length prot flags fd offset s))
    = g_map_cache_vector s /\
  effects (snd (mmap g addr length prot flags fd offset s))
    = effects s ++
      [EvMmap addr length prot flags fd offset
         (g_real_mmap g (effects s) addr length prot flags fd offset)].
Proof.
  intros Hfd. unfold mmap. cbv zeta.
  apply Z.eqb_neq in Hfd. rewrite Hfd. simpl. auto.
Qed.

Lemma mmap_file_backed_delegates_witness :
  let g := kernel_ok (policy_rwx true) in
  fst (mmap g 0 4096 7 MAP_PRIVATE 3 0 (initial_state 0)) = Ret 1048576 /\
  g_map_cache_vector (snd (mmap g 0 4096 7 MAP_PRIVATE 3 0 (initial_state 0)))
    = [] /\
  effects (snd (mmap g 0 4096 7 MAP_PRIVATE 3 0 (initial_state 0)))
    = [EvMmap 0 4096 7 MAP_PRIVATE 3 0 1048576].
Proof.
  intros g.
  apply (mmap_file_backed_delegates g 0 4096 7 MAP_PRIVATE 3 0
           (initial_state 0)).
  discriminate.
Defined.

(** An anonymous [mmap] at an address the caller chose, under
    disallow-static-address, never reaches the real [mmap] and changes
    nothing; it returns [MAP_FAILED], or aborts under
    panic-on-violation. *)
Theorem mmap_static_address_denied (g : globals)
    (addr length prot flags offset : Z) (s : mg_state) :
  disallow_static_address (g_mapguard_policy g) = true ->
  addr <> 0 ->
  mmap g addr length prot flags (-1) offset s = (denied g MAP_FAILED, s).
Proof.
  intros Hst Ha. unfold mmap, denied, MAYBE_PANIC. cbv zeta. simpl.
  apply Z.eqb_neq in Ha. rewrite Ha, Hst. simpl.
  destruct (disallow_rwx _ && _ && _);
    now destruct (panic_on_violation (g_mapguard_policy g)).
Qed.

Lemma mmap_static_address_denied_witness :
  mmap (kernel_ok policy_static) 65536 4096 PROT_READ 34 (-1) 0
       (initial_state 0)
  = (Ret MAP_FAILED, initial_state 0).
Proof.
  apply (mmap_static_address_denied (kernel_ok policy_static));
    [reflexivity | discriminate].
Defined.

(** ** Without the mapping cache *)

Lemma stable_eq_serve_cache_off g r :
  use_mapping_cache (g_mapguard_policy g) = false ->
  stable eq (serve g r).
Proof.
  intros Hc s. destruct r; simpl;
    unfold mmap, munmap, mprotect, mremap, bind, real_mmap, real_munmap,
      real_mprotect, real_mremap, call_real, MAYBE_PANIC, when, memset, ret,
      abort; cbv zeta; rewrite Hc; simpl;
    repeat match goal with
           | |- context [if ?b then _ else _] => destruct b; simpl
           end; reflexivity.
Qed.

(** With use-mapping-cache off, no sequence of hooks ever puts a record
    in the cache, whatever the other switches are: nothing is tracked. *)
Theorem cache_off_tracks_nothing (g : globals) (rs : list request)
    (s : mg_state) :
  use_mapping_cache (g_mapguard_policy g) = false ->
  g_map_cache_vector (run g rs s) = g_map_cache_vector s.
Proof.
  intros Hc. symmetry. apply (stable_run eq).
  intros r _. now apply stable_eq_serve_cache_off.
Qed.

Lemma cache_off_tracks_nothing_witness :
  g_map_cache_vector
    (run (kernel_ok policy_guard_no_cache)
       [ReqMmap 0 8192 3 34 (-1) 0; ReqMprotect 1048576 8192 1;
        ReqMremap 1048576 8192 16384 1; ReqMunmap 1073741824 16384]
       (initial_state 0))
  = [].
Proof.
  apply (cache_off_tracks_nothing (kernel_ok policy_guard_no_cache)).
  reflexivity.
Defined.

(** With use-mapping-cache off, enable-guard-pages does nothing: an
    anonymous [mmap] that the policy allows makes the one real [mmap] and,
    if it succeeds with poison-on-allocation on and write permission,
    fills the region with the poison byte; no guard page is requested. *)
Theorem guard_pages_need_the_cache (g : globals)
    (addr length prot flags offset : Z) (s : mg_state) :
  use_mapping_cache (g_mapguard_policy g) = false ->
  mmap_allowed g addr prot ->
  let map_ptr :=
    g_real_mmap g (effects s) addr length prot flags (-1) offset in
  fst (mmap g addr length prot flags (-1) offset s) = Ret map_ptr /\
  effects (snd (mmap g addr length prot flags (-1) offset s)) =
    effects s ++ [EvMmap addr length prot flags (-1) offset map_ptr] ++
    (if negb (map_ptr =? MAP_FAILED)
        && poison_on_allocation (g_mapguard_policy g)
        && has_flag prot PROT_WRITE
     then [EvMemset map_ptr MG_POISON_BYTE length] else []).
Proof.
  intros Hc [Hrwx Hst]. cbv zeta.
  set (map_ptr := g_real_mmap g (effects s) addr length prot flags (-1)
                    offset).
  assert (H : exists s',
    mmap g addr length prot flags (-1) offset s = (Ret map_ptr, s') /\
    effects s' =
      effects s ++ [EvMmap addr length prot flags (-1) offset map_ptr] ++
      (if negb (map_ptr =? MAP_FAILED)
          && poison_on_allocation (g_mapguard_policy g)
          && has_flag prot PROT_WRITE
       then [EvMemset map_ptr MG_POISON_BYTE length] else [])).
  { unfold mmap. cbv zeta. simpl (negb _). cbv iota.
    rewrite Hrwx, Hst, Hc.
    unfold bind at 1, real_mmap. rewrite call_real_eq. fold map_ptr.
    destruct (map_ptr =? MAP_FAILED); simpl; [eauto|].
    unfold bind, when, memset; simpl.
    destruct (poison_on_allocation _ && has_flag prot PROT_WRITE); simpl;
      eexists; (split; [reflexivity|]); simpl;
      rewrite <- ?app_assoc; auto. }
  destruct H as (s' & -> & H). auto.
Qed.

Lemma guard_pages_need_the_cache_witness :
  let g := kernel_ok policy_guard_no_cache in
  fst (mmap g 0 8192 3 34 (-1) 0 (initial_state 0)) = Ret 1048576 /\
  effects (snd (mmap g 0 8192 3 34 (-1) 0 (initial_state 0))) =
    [EvMmap 0 8192 3 34 (-1) 0 1048576; EvMemset 1048576 MG_POISON_BYTE 8192].
Proof.
  intros g.
  apply (guard_pages_need_the_cache g 0 8192 3 34 0 (initial_state 0));
    [reflexivity | split; reflexivity].
Defined.

(** ** [mprotect] that no rule denies *)

Lemma alter_as_insert {A} (f : A -> A) (p : nat) (v : list A) (e : A) :
  v !! p = Some e -> alter f p v = <[p := f e]> v.
Proof.
  intros He. rewrite list_insert_alter. apply list_alter_ext; auto.
  intros x Hx. congruence.
Qed.

(** The part of [mprotect] after the policy checks, with the record the
    lookup found, if any. *)
Lemma mprotect_not_denied g addr len prot s :
  ~ mprotect_violation g addr prot s ->
  mprotect g addr len prot s =
  (let* r := real_mprotect g addr len prot in
   match (if use_mapping_cache (g_mapguard_policy g)
          then vector_for_each is_mapguard_entry_cached addr
                 (g_map_cache_vector s)
          else None) with
   | Some p =>
       when (r =? 0)
         (modify p (fun e => set_immutable_prot
                               (Z.lor (immutable_prot e) prot) e) >>
          modify p (set_current_prot prot))
   | None => ret tt
   end >> ret r) s.
Proof.
  intros Hv. unfold mprotect. cbv zeta.
  destruct (disallow_rwx _ && _ && _) eqn:Hrwx.
  { exfalso. apply Hv. left. now apply rwx_violation_iff. }
  destruct (use_mapping_cache (g_mapguard_policy g)) eqn:Hc; [|reflexivity].
  unfold bind at 1, lookup_entry.
  destruct (vector_for_each _ _ _) as [p|] eqn:Hl; [|reflexivity].
  destruct (vector_for_each_Some _ _ _ _ Hl) as (e & He & _).
  unfold bind at 1, load. rewrite He. simpl.
  destruct (xom_enabled e =? 0) eqn:Hx; [|reflexivity].
  apply Z.eqb_eq in Hx.
  destruct (disallow_transition_to_x _ && _ && _) eqn:Hto.
  { exfalso. apply Hv. right. split; auto. exists p, e.
    repeat split; auto. left.
    rewrite !andb_true_iff, !has_flag_iff in Hto.
    unfold to_x_violation. tauto. }
  destruct (disallow_transition_from_x _ && _ && _) eqn:Hfrom.
  { exfalso. apply Hv. right. split; auto. exists p, e.
    repeat split; auto. right.
    rewrite !andb_true_iff, !has_flag_iff in Hfrom.
    unfold from_x_violation. tauto. }
  reflexivity.
Qed.

Lemma mprotect_tail_call g addr len prot mce s :
  exists s',
    (let* r := real_mprotect g addr len prot in
     match mce with
     | Some p =>
         when (r =? 0)
           (modify p (fun e => set_immutable_prot
                                 (Z.lor (immutable_prot e) prot) e) >>
            modify p (set_current_prot prot))
     | None => ret tt
     end >> ret r) s
    = (Ret (g_real_mprotect g (effects s) addr len prot), s') /\
    effects s' = effects s ++
      [EvMprotect addr len prot (g_real_mprotect g (effects s) addr len prot)]
    /\
    g_map_cache_vector s' =
      match mce with
      | Some p =>
          if g_real_mprotect g (effects s) addr len prot =? 0
          then alter (set_current_prot prot ∘
                      (fun e => set_immutable_prot
                                  (Z.lor (immutable_prot e) prot) e)) p
                 (g_map_cache_vector s)
          else g_map_cache_vector s
      | None => g_map_cache_vector s
      end.
Proof.
  unfold bind at 1, real_mprotect. rewrite call_real_eq.
  destruct mce as [p|]; unfold bind, when, modify; simpl.
  - destruct (_ =? 0); simpl; eexists; repeat split.
    simpl. now rewrite list_alter_alter_eq.
  - eexists. repeat split.
Qed.

(** An [mprotect] that no rule denies makes exactly one call, the real
    [mprotect] with the caller's arguments, and returns its result. *)
Theorem mprotect_allowed_delegates (g : globals) (addr len prot : Z)
    (s : mg_state) :
  ~ mprotect_violation g addr prot s ->
  fst (mprotect g addr len prot s)
    = Ret (g_real_mprotect g (effects s) addr len prot) /\
  effects (snd (mprotect g addr len prot s))
    = effects s ++
      [EvMprotect addr len prot (g_real_mprotect g (effects s) addr len prot)].
Proof.
  intros Hv. rewrite (mprotect_not_denied _ _ _ _ _ Hv).
  destruct (mprotect_tail_call g addr len prot
              (if use_mapping_cache (g_mapguard_policy g)
               then vector_for_each is_mapguard_entry_cached addr
                      (g_map_cache_vector s)
               else None) s) as (s' & -> & He & _).
  auto.
Qed.

Lemma mprotect_allowed_delegates_witness :
  let g := kernel_ok (policy_to_x false) in
  let s := run g [ReqMmap 0 4096 PROT_READ 34 (-1) 0] (initial_state 0) in
  fst (mprotect g 1048576 4096 (Z.lor PROT_READ PROT_EXEC) s) = Ret 0 /\
  effects (snd (mprotect g 1048576 4096 (Z.lor PROT_READ PROT_EXEC) s))
    = effects s ++ [EvMprotect 1048576 4096 (Z.lor PROT_READ PROT_EXEC) 0].
Proof.
  intros g s.
  apply (mprotect_allowed_delegates g 1048576 4096
           (Z.lor PROT_READ PROT_EXEC) s).
  intros [(H & _)|(_ & p & e & Hl & He & _ & [(_ & _ & H)|(H & _)])].
  - discriminate H.
  - vm_compute in Hl. injection Hl as <-. vm_compute in He.
    injection He as <-. apply H. reflexivity.
  - discriminate H.
Defined.

(** The transition rules bind tracked records that are not execute-only,
    and nothing else: with the cache off, for an address no record
    covers, or when the record found is execute-only, an [mprotect] that
    Disallow-RWX lets through reaches the real [mprotect], with
    disallow-transition-to-execute and disallow-transition-from-execute
    on and whatever the history of the memory. *)
Theorem transition_rules_need_a_plain_record (g : globals)
    (addr len prot : Z) (s : mg_state) :
  ~ rwx_violation g prot ->
  (use_mapping_cache (g_mapguard_policy g) = false \/
   vector_for_each is_mapguard_entry_cached addr (g_map_cache_vector s)
     = None \/
   exists p e,
     vector_for_each is_mapguard_entry_cached addr (g_map_cache_vector s)
       = Some p /\
     g_map_cache_vector s !! p = Some e /\ xom_enabled e <> 0) ->
  fst (mprotect g addr len prot s)
    = Ret (g_real_mprotect g (effects s) addr len prot).
Proof.
  intros Hrwx Hcase.
  assert (Hv : ~ mprotect_violation g addr prot s).
  { intros [H|(Hc & p & e & Hl & He & Hx & _)]; [contradiction|].
    destruct Hcase as [H|[H|(p' & e' & Hl' & He' & Hx')]]; congruence. }
  rewrite (mprotect_not_denied _ _ _ _ _ Hv).
  destruct (mprotect_tail_call g addr len prot
              (if use_mapping_cache (g_mapguard_policy g)
               then vector_for_each is_mapguard_entry_cached addr
                      (g_map_cache_vector s)
               else None) s) as (s' & -> & _).
  reflexivity.
Qed.

Lemma transition_rules_need_a_plain_record_witness :
  let g := kernel_ok policy_transitions_no_cache in
  let s := run g [ReqMmap 0 4096 PROT_WRITE 34 (-1) 0] (initial_state 0) in
  fst (mprotect g 1048576 4096 PROT_EXEC s) = Ret 0.
Proof.
  intros g s.
  apply (transition_rules_need_a_plain_record g 1048576 4096 PROT_EXEC s).
  - intros (H & _). discriminate H.
  - left. reflexivity.
Defined.

(** A successful [mprotect] on a tracked address that no rule denies
    records the request against the whole record, whatever [len] is:
    [current_prot] becomes [prot], [immutable_prot] gains the bits of
    [prot], and nothing else in the cache changes. *)
Theorem mprotect_success_updates_record (g : globals) (addr len prot : Z)
    (s : mg_state) (p : nat) (e : mapguard_cache_entry_t) :
  use_mapping_cache (g_mapguard_policy g) = true ->
  vector_for_each is_mapguard_entry_cached addr (g_map_cache_vector s)
    = Some p ->
  g_map_cache_vector s !! p = Some e ->
  ~ mprotect_violation g addr prot s ->
  g_real_mprotect g (effects s) addr len prot = 0 ->
  fst (mprotect g addr len prot s) = Ret 0 /\
  g_map_cache_vector (snd (mprotect g addr len prot s)) =
    <[p := set_current_prot prot
             (set_immutable_prot (Z.lor (immutable_prot e) prot) e)]>
      (g_map_cache_vector s).
Proof.
  intros Hc Hl He Hv Hr. rewrite (mprotect_not_denied _ _ _ _ _ Hv).
  rewrite Hc, Hl.
  destruct (mprotect_tail_call g addr len prot (Some p) s)
    as (s' & -> & _ & Hvec).
  rewrite Hr in *. simpl in *. split; [reflexivity|].
  rewrite Hvec.
  now rewrite (alter_as_insert _ p (g_map_cache_vector s) e He).
Qed.

Lemma mprotect_success_updates_record_witness :
  let g := kernel_ok (policy_to_x false) in
  let s := run g [ReqMmap 0 8192 PROT_READ 34 (-1) 0] (initial_state 0) in
  fst (mprotect g 1052672 4096 (Z.lor PROT_READ PROT_EXEC) s) = Ret 0 /\
  g_map_cache_vector
    (snd (mprotect g 1052672 4096 (Z.lor PROT_READ PROT_EXEC) s)) =
    [{| start := 1048576; size := 8192; guard_bottom := 0; guard_top := 0;
        immutable_prot := 5; current_prot := 5; cache_index := 0;
        xom_enabled := 0 |}].
Proof.
  intros g s.
  apply (mprotect_success_updates_record g 1052672 4096
           (Z.lor PROT_READ PROT_EXEC) s 0
           {| start := 1048576; size := 8192; guard_bottom := 0;
              guard_top := 0; immutable_prot := 1; current_prot := 1;
              cache_index := 0; xom_enabled := 0 |});
    try reflexivity.
  intros [(H & _)|(_ & p & e & Hl & He & _ & [(_ & _ & H)|(H & _)])].
  - discriminate H.
  - vm_compute in Hl. injection Hl as <-. vm_compute in He.
    injection He as <-. apply H. reflexivity.
  - discriminate H.
Defined.

(** ** Running the guard-page functions *)

Lemma bind_run {A B} (c : M A) (k : A -> M B) s a s' :
  c s = (Ret a, s') -> bind c k s = k a s'.
Proof. intros H. unfold bind. now rewrite H. Qed.

Lemma load_run p e s :
  g_map_cache_vector s !! p = Some e -> load p s = (Ret e, s).
Proof. intros H. unfold load. now rewrite H. Qed.

Lemma lookup_entry_run addr s :
  lookup_entry addr s =
  (Ret (vector_for_each is_mapguard_entry_cached addr
          (g_map_cache_vector s)), s).
Proof. reflexivity. Qed.

Lemma unmap_bottom_guard_page_run g p e s :
  g_map_cache_vector s !! p = Some e ->
  exists s',
    unmap_bottom_guard_page g p s = (Ret tt, s') /\
    g_map_cache_vector s' = g_map_cache_vector s /\
    effects s' = effects s ++ guard_unmap g (effects s) (guard_bottom e).
Proof.
  intros He. unfold unmap_bottom_guard_page, guard_unmap.
  rewrite (bind_run _ _ _ _ _ (load_run _ _ _ He)).
  destruct (guard_bottom e =? 0); simpl.
  - exists s. rewrite app_nil_r. auto.
  - unfold bind, real_munmap. rewrite call_real_eq. eexists.
    repeat split.
Qed.

Lemma unmap_top_guard_page_run g p e s :
  g_map_cache_vector s !! p = Some e ->
  exists s',
    unmap_top_guard_page g p s = (Ret tt, s') /\
    g_map_cache_vector s' = g_map_cache_vector s /\
    effects s' = effects s ++ guard_unmap g (effects s) (guard_top e).
Proof.
  intros He. unfold unmap_top_guard_page, guard_unmap.
  rewrite (bind_run _ _ _ _ _ (load_run _ _ _ He)).
  destruct (guard_top e =? 0); simpl.
  - exists s. rewrite app_nil_r. auto.
  - unfold bind, real_munmap. rewrite call_real_eq. eexists.
    repeat split.
Qed.

Lemma map_bottom_guard_page_run g p e s :
  g_map_cache_vector s !! p = Some e ->
  exists s',
    map_bottom_guard_page g (Some p) s = (Ret tt, s') /\
    g_map_cache_vector s' =
      <[p := set_guard_bottom
               (guard_answer g (effects s) (bottom_hint g e)) e]>
        (g_map_cache_vector s) /\
    effects s' = effects s ++ [guard_request g (effects s) (bottom_hint g e)].
Proof.
  intros He. unfold map_bottom_guard_page.
  rewrite (bind_run _ _ _ _ _ (load_run _ _ _ He)).
  unfold bind, map_guard_page, real_mmap. rewrite call_real_eq.
  unfold modify. simpl. eexists. split; [reflexivity|]. simpl.
  split; [|reflexivity]. now apply alter_as_insert.
Qed.

Lemma map_top_guard_page_run g p e s :
  g_map_cache_vector s !! p = Some e ->
  exists s',
    map_top_guard_page g (Some p) s = (Ret tt, s') /\
    g_map_cache_vector s' =
      <[p := set_guard_top (guard_answer g (effects s) (top_hint g e)) e]>
        (g_map_cache_vector s) /\
    effects s' = effects s ++ [guard_request g (effects s) (top_hint g e)].
Proof.
  intros He. unfold map_top_guard_page.
  rewrite (bind_run _ _ _ _ _ (load_run _ _ _ He)).
  unfold bind, map_guard_page, real_mmap. rewrite call_real_eq.
  unfold modify. simpl. eexists. split; [reflexivity|]. simpl.
  split; [|reflexivity]. now apply alter_as_insert.
Qed.

Lemma lookup_insert_same (p : nat) (e e' : mapguard_cache_entry_t)
    (v : list mapguard_cache_entry_t) :
  v !! p = Some e -> <[p := e']> v !! p = Some e'.
Proof.
  intros He. apply list_lookup_insert_eq. now apply lookup_lt_Some with e.
Qed.

Lemma map_guard_pages_run g p e s :
  g_map_cache_vector s !! p = Some e ->
  (start e =? 0) && negb (size e =? 0) = false ->
  exists s',
    map_guard_pages g p s = (Ret tt, s') /\
    g_map_cache_vector s' =
      <[p := set_guard_top
               (guard_answer g
                  (effects s ++ [guard_request g (effects s)
                                   (bottom_hint g e)])
                  (top_hint g e))
               (set_guard_bottom
                  (guard_answer g (effects s) (bottom_hint g e)) e)]>
        (g_map_cache_vector s) /\
    effects s' =
      effects s ++
      [guard_request g (effects s) (bottom_hint g e);
       guard_request g
         (effects s ++ [guard_request g (effects s) (bottom_hint g e)])
         (top_hint g e)].
Proof.
  intros He Hgo. unfold map_guard_pages.
  rewrite (bind_run _ _ _ _ _ (load_run _ _ _ He)), Hgo.
  destruct (map_bottom_guard_page_run g p e s He) as (s1 & E1 & V1 & F1).
  rewrite (bind_run _ _ _ _ _ E1).
  assert (He1 : g_map_cache_vector s1 !! p
                = Some (set_guard_bottom
                          (guard_answer g (effects s) (bottom_hint g e)) e)).
  { rewrite V1. now apply lookup_insert_same with e. }
  destruct (map_top_guard_page_run g p _ s1 He1) as (s2 & E2 & V2 & F2).
  exists s2. split; [exact E2|]. split.
  - rewrite V2, V1, list_insert_insert_eq. rewrite F1. reflexivity.
  - rewrite F2, F1, <- app_assoc. reflexivity.
Qed.

(** [map_guard_pages] on a page-aligned mapping that is not at the ends
    of the address space, for a page size that is a power of two: two one-page
    [PROT_NONE] mappings are requested, the first at the page right
    below [start], the second at the first page boundary at or after
    [start + size], and the record takes whatever the kernel answers. *)
Theorem guard_pages_flank_the_mapping (g : globals) (k : Z) (p : nat)
    (e : mapguard_cache_entry_t) (s : mg_state) :
  0 <= k < 64 -> g_page_size g = 2 ^ k ->
  start e mod g_page_size g = 0 ->
  g_page_size g <= start e -> 0 <= size e ->
  start e + size e + g_page_size g <= 2 ^ 64 ->
  g_map_cache_vector s !! p = Some e ->
  let ps := g_page_size g in
  let below := start e - ps in
  let above := page_ceiling ps (start e + size e) in
  let gb := guard_answer g (effects s) below in
  let gt := guard_answer g (effects s ++ [guard_request g (effects s) below])
              above in
  fst (map_guard_pages g p s) = Ret tt /\
  effects (snd (map_guard_pages g p s)) =
    effects s ++
    [EvMmap below ps PROT_NONE (Z.lor MAP_ANONYMOUS MAP_PRIVATE) (-1) 0 gb;
     EvMmap above ps PROT_NONE (Z.lor MAP_ANONYMOUS MAP_PRIVATE) (-1) 0 gt] /\
  g_map_cache_vector (snd (map_guard_pages g p s)) =
    <[p := set_guard_top gt (set_guard_bottom gb e)]> (g_map_cache_vector s)
  /\ below + ps = start e /\ start e + size e <= above < start e + size e + ps.
Proof.
  intros Hk Hps Hal Hlo Hsz Hhi He. cbv zeta.
  assert (Hpos : 0 < g_page_size g)
    by (rewrite Hps; apply Z.pow_pos_nonneg; lia).
  assert (Hgo : (start e =? 0) && negb (size e =? 0) = false).
  { replace (start e =? 0) with false; auto.
    symmetry. apply Z.eqb_neq. lia. }
  assert (Hb : bottom_hint g e = start e - g_page_size g).
  { unfold bottom_hint.
    assert (Hw : wrap64 (start e - 1) = start e - 1)
      by (unfold wrap64; apply Z.mod_small; lia).
    rewrite Hw.
    rewrite (get_base_page_idem g k) by (try assumption; lia).
    rewrite (get_base_page_pow2 g k) by (try assumption; lia).
    rewrite <- Hps.
    pose proof (Z.div_mod (start e) (g_page_size g) ltac:(lia)) as Hd.
    replace (start e - 1)
      with ((g_page_size g - 1) + (start e / g_page_size g - 1)
                                   * g_page_size g) by lia.
    rewrite Z.mod_add by lia. rewrite Z.mod_small by lia. lia. }
  destruct (ROUND_UP_PAGE_is_next_boundary_aux g (start e + size e))
    as (Hm & Hrange); try lia.
  assert (Ht : top_hint g e = page_ceiling (g_page_size g)
                                (start e + size e)).
  { unfold top_hint.
    assert (Hw : wrap64 (start e + size e) = start e + size e)
      by (unfold wrap64; apply Z.mod_small; lia).
    rewrite Hw, ROUND_UP_PAGE_eq by lia.
    rewrite (get_base_page_pow2 g k) by (try assumption; lia).
    rewrite <- Hps, Hm. lia. }
  destruct (map_guard_pages_run g p e s He Hgo) as (s' & -> & V & F).
  rewrite Hb, Ht in V, F. simpl.
  repeat split; try assumption; try lia.
Qed.

Lemma guard_pages_flank_the_mapping_witness :
  let g := kernel_ok policy_cache in
  let s := run g [ReqMmap 0 8192 3 34 (-1) 0] (initial_state 0) in
  effects (snd (map_guard_pages g 0 s)) =
    effects s ++ [EvMmap 1044480 4096 PROT_NONE 34 (-1) 0 1044480;
                  EvMmap 1056768 4096 PROT_NONE 34 (-1) 0 1056768].
Proof.
  intros g s.
  pose proof (guard_pages_flank_the_mapping g 12 0
                {| start := 1048576; size := 8192; guard_bottom := 0;
                   guard_top := 0; immutable_prot := 3; current_prot := 3;
                   cache_index := 0; xom_enabled := 0 |} s
                ltac:(lia) eq_refl eq_refl ltac:(simpl; lia)
                ltac:(simpl; lia) ltac:(simpl; lia) eq_refl)
    as (_ & F & _).
  exact F.
Defined.

(** ** Partial [munmap] *)

(** Removing a prefix.  The lookup finds a record that starts at [addr],
    and [length] is not its size.  The record loses [length] bytes at the
    front ([start] and [size] move, modulo [2^64]: [length] is not
    compared with [size]); the bottom guard page, if the field is set,
    is unmapped before the real [munmap]; and a new one is requested
    below the new start only if the real [munmap] succeeds.  If it
    fails, the record keeps the new range and the address of the guard
    page that is gone. *)
Theorem munmap_leading_removal (g : globals) (addr length : Z)
    (s : mg_state) (p : nat) (e : mapguard_cache_entry_t) :
  use_mapping_cache (g_mapguard_policy g) = true ->
  vector_for_each is_mapguard_entry_cached addr (g_map_cache_vector s)
    = Some p ->
  g_map_cache_vector s !! p = Some e ->
  start e = addr -> size e <> length ->
  let e1 := set_start (wrap64 (start e + length))
              (set_size (wrap64 (size e - length)) e) in
  let h1 := effects s ++ guard_unmap g (effects s) (guard_bottom e) in
  let r := g_real_munmap g h1 addr length in
  let h2 := h1 ++ [EvMunmap addr length r] in
  fst (munmap g addr length s) = Ret r /\
  g_map_cache_vector (snd (munmap g addr length s)) =
    <[p := if r =? 0
           then set_guard_bottom (guard_answer g h2 (bottom_hint g e1)) e1
           else e1]> (g_map_cache_vector s) /\
  effects (snd (munmap g addr length s)) =
    h2 ++ (if r =? 0 then [guard_request g h2 (bottom_hint g e1)] else []).
Proof.
  intros Hc Hl He Hs Hne. cbv zeta.
  set (e0 := set_size (wrap64 (size e - length)) e).
  set (e1 := set_start (wrap64 (start e + length)) e0).
  set (h1 := effects s ++ guard_unmap g (effects s) (guard_bottom e)).
  set (r := g_real_munmap g h1 addr length).
  set (h2 := h1 ++ [EvMunmap addr length r]).
  assert (H : exists s',
    munmap g addr length s = (Ret r, s') /\
    g_map_cache_vector s' =
      <[p := if r =? 0
             then set_guard_bottom (guard_answer g h2 (bottom_hint g e1)) e1
             else e1]> (g_map_cache_vector s) /\
    effects s' =
      h2 ++ (if r =? 0 then [guard_request g h2 (bottom_hint g e1)] else [])).
  { unfold munmap. rewrite Hc.
    rewrite (bind_run _ _ _ _ _ (lookup_entry_run addr s)), Hl.
    rewrite (bind_run _ _ _ _ _ (load_run _ _ _ He)).
    rewrite Hs, Z.eqb_refl. apply Z.eqb_neq in Hne. rewrite Hne. simpl.
    unfold bind at 1, modify. cbv beta iota.
    set (s1 := with_vector _ s).
    assert (He1 : g_map_cache_vector s1 !! p = Some e0).
    { unfold s1. simpl. now rewrite list_lookup_alter_eq, He. }
    rewrite (bind_run _ _ _ _ _ (load_run _ _ _ He1)).
    replace (addr >? start e0) with false
      by (symmetry; simpl; rewrite Hs, Z.gtb_ltb; apply Z.ltb_irrefl).
    simpl (false && _). cbv iota.
    replace (start e0 =? addr) with true
      by (symmetry; simpl; rewrite Hs; apply Z.eqb_refl).
    destruct (unmap_bottom_guard_page_run g p e0 s1 He1)
      as (s2 & E2 & V2 & F2).
    rewrite (bind_run _ _ _ _ _ E2).
    unfold bind at 1, modify. cbv beta iota.
    set (s3 := with_vector _ s2).
    assert (He3 : g_map_cache_vector s3 !! p = Some e1).
    { unfold s3. simpl. rewrite V2. unfold s1. simpl.
      now rewrite list_alter_alter_eq, list_lookup_alter_eq, He. }
    assert (F3 : effects s3 = h1) by (unfold s3; simpl; now rewrite F2).
    assert (V3 : g_map_cache_vector s3 = <[p := e1]> (g_map_cache_vector s)).
    { unfold s3. simpl. rewrite V2. unfold s1. simpl.
      rewrite list_alter_alter_eq.
      rewrite (alter_as_insert _ p _ e He). reflexivity. }
    unfold bind at 1, real_munmap. rewrite call_real_eq, F3. fold r.
    set (s4 := {| g_map_cache_vector := g_map_cache_vector s3;
                  errno := _; effects := _ |}).
    destruct (r =? 0); simpl.
    - assert (He4 : g_map_cache_vector s4 !! p = Some e1) by exact He3.
      destruct (map_bottom_guard_page_run g p e1 s4 He4)
        as (s5 & E5 & V5 & F5).
      rewrite (bind_run _ _ _ _ _ E5). exists s5. split; [reflexivity|].
      split.
      + rewrite V5. change (g_map_cache_vector s4)
          with (g_map_cache_vector s3).
        rewrite V3, list_insert_insert_eq. reflexivity.
      + rewrite F5. reflexivity.
    - unfold bind. simpl. eexists. split; [reflexivity|]. simpl.
      rewrite app_nil_r. auto. }
  destruct H as (s' & -> & V & F). auto.
Qed.

Lemma munmap_leading_removal_witness :
  let g := kernel_ok policy_guard in
  let s := run g [ReqMmap 0 8192 3 34 (-1) 0] (initial_state 0) in
  fst (munmap g 1048576 4096 s) = Ret 0 /\
  g_map_cache_vector (snd (munmap g 1048576 4096 s)) =
    [{| start := 1052672; size := 4096; guard_bottom := 1048576;
        guard_top := 1056768; immutable_prot := 3; current_prot := 3;
        cache_index := 0; xom_enabled := 0 |}].
Proof.
  intros g s.
  pose proof (munmap_leading_removal g 1048576 4096 s 0 guarded_entry
                eq_refl eq_refl eq_refl eq_refl ltac:(discriminate))
    as (R & V & _).
  split; [exact R | exact V].
Defined.

(** Removing from the inside or the end.  The lookup finds a record that
    starts below [addr].  [size] loses [length] bytes, wherever in the
    record the bytes are: the end of the request is not compared with the
    end of the record.  If [length] is below the size that is left, the
    top guard page, if the field is set, is unmapped before the real
    [munmap] and a new one is requested above the new end only if the
    real [munmap] succeeds. *)
Theorem munmap_trailing_removal (g : globals) (addr length : Z)
    (s : mg_state) (p : nat) (e : mapguard_cache_entry_t) :
  use_mapping_cache (g_mapguard_policy g) = true ->
  vector_for_each is_mapguard_entry_cached addr (g_map_cache_vector s)
    = Some p ->
  g_map_cache_vector s !! p = Some e ->
  start e < addr -> length < wrap64 (size e - length) ->
  let e1 := set_size (wrap64 (size e - length)) e in
  let h1 := effects s ++ guard_unmap g (effects s) (guard_top e) in
  let r := g_real_munmap g h1 addr length in
  let h2 := h1 ++ [EvMunmap addr length r] in
  fst (munmap g addr length s) = Ret r /\
  g_map_cache_vector (snd (munmap g addr length s)) =
    <[p := if r =? 0
           then set_guard_top (guard_answer g h2 (top_hint g e1)) e1
           else e1]> (g_map_cache_vector s) /\
  effects (snd (munmap g addr length s)) =
    h2 ++ (if r =? 0 then [guard_request g h2 (top_hint g e1)] else []).
Proof.
  intros Hc Hl He Hs Hlt. cbv zeta.
  set (e1 := set_size (wrap64 (size e - length)) e).
  set (h1 := effects s ++ guard_unmap g (effects s) (guard_top e)).
  set (r := g_real_munmap g h1 addr length).
  set (h2 := h1 ++ [EvMunmap addr length r]).
  assert (H : exists s',
    munmap g addr length s = (Ret r, s') /\
    g_map_cache_vector s' =
      <[p := if r =? 0
             then set_guard_top (guard_answer g h2 (top_hint g e1)) e1
             else e1]> (g_map_cache_vector s) /\
    effects s' =
      h2 ++ (if r =? 0 then [guard_request g h2 (top_hint g e1)] else [])).
  { unfold munmap. rewrite Hc.
    rewrite (bind_run _ _ _ _ _ (lookup_entry_run addr s)), Hl.
    rewrite (bind_run _ _ _ _ _ (load_run _ _ _ He)).
    replace (start e =? addr) with false
      by (symmetry; apply Z.eqb_neq; lia).
    simpl (negb false || _). cbv iota.
    unfold bind at 1, modify. cbv beta iota.
    set (s1 := with_vector _ s).
    assert (He1 : g_map_cache_vector s1 !! p = Some e1).
    { unfold s1. simpl. now rewrite list_lookup_alter_eq, He. }
    assert (V1 : g_map_cache_vector s1 = <[p := e1]> (g_map_cache_vector s)).
    { unfold s1. simpl. rewrite (alter_as_insert _ p _ e He). reflexivity. }
    rewrite (bind_run _ _ _ _ _ (load_run _ _ _ He1)).
    replace (addr >? start e1) with true
      by (symmetry; simpl; apply Z.gtb_lt; lia).
    replace (length <? size e1) with true
      by (symmetry; simpl; apply Z.ltb_lt; lia).
    simpl (true && true). cbv iota.
    destruct (unmap_top_guard_page_run g p e1 s1 He1)
      as (s2 & E2 & V2 & F2).
    rewrite (bind_run _ _ _ _ _ E2).
    assert (F2' : effects s2 = h1) by (rewrite F2; reflexivity).
    unfold bind at 1, real_munmap. rewrite call_real_eq, F2'. fold r.
    set (s4 := {| g_map_cache_vector := g_map_cache_vector s2;
                  errno := _; effects := _ |}).
    assert (He4 : g_map_cache_vector s4 !! p = Some e1)
      by (simpl; now rewrite V2).
    destruct (r =? 0); simpl.
    - destruct (map_top_guard_page_run g p e1 s4 He4)
        as (s5 & E5 & V5 & F5).
      rewrite (bind_run _ _ _ _ _ E5). exists s5. split; [reflexivity|].
      split.
      + rewrite V5. change (g_map_cache_vector s4)
          with (g_map_cache_vector s2).
        rewrite V2, V1, list_insert_insert_eq. reflexivity.
      + rewrite F5. reflexivity.
    - unfold bind. simpl. eexists. split; [reflexivity|]. simpl.
      rewrite app_nil_r, V2. auto. }
  destruct H as (s' & -> & V & F). auto.
Qed.

Lemma munmap_trailing_removal_witness :
  let g := kernel_ok policy_guard in
  let s := run g [ReqMmap 0 12288 3 34 (-1) 0] (initial_state 0) in
  fst (munmap g 1056768 4096 s) = Ret 0 /\
  g_map_cache_vector (snd (munmap g 1056768 4096 s)) =
    [{| start := 1048576; size := 8192; guard_bottom := 1044480;
        guard_top := 1056768; immutable_prot := 3; current_prot := 3;
        cache_index := 0; xom_enabled := 0 |}].
Proof.
  intros g s.
  pose proof (munmap_trailing_removal g 1056768 4096 s 0
                {| start := 1048576; size := 12288; guard_bottom := 1044480;
                   guard_top := 1060864; immutable_prot := 3;
                   current_prot := 3; cache_index := 0; xom_enabled := 0 |}
                eq_refl eq_refl eq_refl eq_refl eq_refl)
    as (R & V & _).
  split; [exact R | exact V].
Defined.

(** Removing a tail that is not shorter than what is left.  The record
    starts below [addr] and [length] is at least the size left after the
    removal: [size] loses [length] bytes and the real [munmap] is called,
    and that is all.  The top guard page stays where it was, above the
    bytes that were just unmapped, and the record keeps its address. *)
Theorem munmap_long_tail_keeps_guard (g : globals) (addr length : Z)
    (s : mg_state) (p : nat) (e : mapguard_cache_entry_t) :
  use_mapping_cache (g_mapguard_policy g) = true ->
  vector_for_each is_mapguard_entry_cached addr (g_map_cache_vector s)
    = Some p ->
  g_map_cache_vector s !! p = Some e ->
  start e < addr -> wrap64 (size e - length) <= length ->
  let r := g_real_munmap g (effects s) addr length in
  fst (munmap g addr length s) = Ret r /\
  g_map_cache_vector (snd (munmap g addr length s)) =
    <[p := set_size (wrap64 (size e - length)) e]> (g_map_cache_vector s) /\
  effects (snd (munmap g addr length s)) =
    effects s ++ [EvMunmap addr length r].
Proof.
  intros Hc Hl He Hs Hge. cbv zeta.
  set (e1 := set_size (wrap64 (size e - length)) e).
  assert (H : exists s',
    munmap g addr length s
      = (Ret (g_real_munmap g (effects s) addr length), s') /\
    g_map_cache_vector s' = <[p := e1]> (g_map_cache_vector s) /\
    effects s' = effects s ++
      [EvMunmap addr length (g_real_munmap g (effects s) addr length)]).
  { unfold munmap. rewrite Hc.
    rewrite (bind_run _ _ _ _ _ (lookup_entry_run addr s)), Hl.
    rewrite (bind_run _ _ _ _ _ (load_run _ _ _ He)).
    replace (start e =? addr) with false
      by (symmetry; apply Z.eqb_neq; lia).
    simpl (negb false || _). cbv iota.
    unfold bind at 1, modify. cbv beta iota.
    set (s1 := with_vector _ s).
    assert (He1 : g_map_cache_vector s1 !! p = Some e1).
    { unfold s1. simpl. now rewrite list_lookup_alter_eq, He. }
    rewrite (bind_run _ _ _ _ _ (load_run _ _ _ He1)).
    replace (length <? size e1) with false
      by (symmetry; simpl; apply Z.ltb_ge; lia).
    rewrite andb_false_r.
    replace (start e1 =? addr) with false
      by (symmetry; simpl; apply Z.eqb_neq; lia).
    unfold real_munmap. rewrite call_real_eq. eexists.
    split; [reflexivity|]. simpl. split; [|reflexivity].
    rewrite (alter_as_insert _ p _ e He). reflexivity. }
  destruct H as (s' & -> & V & F). auto.
Qed.

Lemma munmap_long_tail_keeps_guard_witness :
  let g := kernel_ok policy_guard in
  let s := run g [ReqMmap 0 8192 3 34 (-1) 0] (initial_state 0) in
  g_map_cache_vector (snd (munmap g 1052672 4096 s)) =
    [{| start := 1048576; size := 4096; guard_bottom := 1044480;
        guard_top := 1056768; immutable_prot := 3; current_prot := 3;
        cache_index := 0; xom_enabled := 0 |}] /\
  effects (snd (munmap g 1052672 4096 s)) =
    effects s ++ [EvMunmap 1052672 4096 0].
Proof.
  intros g s.
  pose proof (munmap_long_tail_keeps_guard g 1052672 4096 s 0 guarded_entry
                eq_refl eq_refl eq_refl eq_refl ltac:(vm_compute; discriminate))
    as (_ & V & F).
  split; [exact V | exact F].
Defined.

(** ** [mremap] *)

Lemma never_aborts_lookup_entry addr : never_aborts (lookup_entry addr).
Proof. intros s. rewrite lookup_entry_run. eauto. Qed.

(** [mremap] is never refused: no switch, panic-on-violation included,
    and no state of the cache makes the hook abort or return anything
    but the result of the real [mremap], which is called first, with the
    caller's arguments. *)
Theorem mremap_returns_the_real_result (g : globals)
    (addr old_len new_len flags : Z) (s : mg_state) :
  fst (mremap g addr old_len new_len flags s)
    = Ret (g_real_mremap g (effects s) addr old_len new_len flags).
Proof.
  unfold mremap. unfold bind at 1, real_mremap. rewrite call_real_eq.
  set (map_ptr := g_real_mremap g (effects s) addr old_len new_len flags).
  match goal with
  | |- fst (bind ?c ?k ?st) = _ =>
      assert (Hy : yields (bind c k) (fun r => r = map_ptr))
  end.
  { apply yields_seq; [|intros; now apply yields_ret].
    destruct (use_mapping_cache _); [|now apply yields_ret].
    apply yields_seq; [apply never_aborts_lookup_entry|].
    intros [p|]; [|now apply yields_ret].
    apply yields_seq; [apply never_aborts_load|]. intros e.
    destruct (_ && _); [|now apply yields_ret].
    unfold real_munmap. yields_steps. }
  match goal with
  | |- fst (?c ?st) = _ => destruct (Hy st) as (a & s' & -> & ->)
  end.
  reflexivity.
Qed.

(** [mremap] of a tracked mapping that has a guard page, when the real
    [mremap] succeeds and does not return address 0: after the real
    [mremap], the real [munmap] is called on both guard fields, on the one
    that is NULL as well when only one is set; the record takes the new
    address and the new length; and two guard pages are requested around
    the new range, whose answers go to the guard fields. *)
Theorem mremap_moves_record_and_guards (g : globals)
    (addr old_len new_len flags : Z) (s : mg_state) (p : nat)
    (e : mapguard_cache_entry_t) :
  use_mapping_cache (g_mapguard_policy g) = true ->
  vector_for_each is_mapguard_entry_cached addr (g_map_cache_vector s)
    = Some p ->
  g_map_cache_vector s !! p = Some e ->
  guard_bottom e <> 0 \/ guard_top e <> 0 ->
  let map_ptr := g_real_mremap g (effects s) addr old_len new_len flags in
  map_ptr <> MAP_FAILED -> map_ptr <> 0 ->
  let ps := g_page_size g in
  let h1 := effects s ++ [EvMremap addr old_len new_len flags map_ptr] in
  let h2 := h1 ++ [EvMunmap (guard_bottom e) ps
                     (g_real_munmap g h1 (guard_bottom e) ps)] in
  let h3 := h2 ++ [EvMunmap (guard_top e) ps
                     (g_real_munmap g h2 (guard_top e) ps)] in
  let e1 := set_size new_len (set_start map_ptr e) in
  let gb := guard_answer g h3 (bottom_hint g e1) in
  let h4 := h3 ++ [guard_request g h3 (bottom_hint g e1)] in
  let gt := guard_answer g h4 (top_hint g e1) in
  g_map_cache_vector (snd (mremap g addr old_len new_len flags s)) =
    <[p := set_guard_top gt (set_guard_bottom gb e1)]>
      (g_map_cache_vector s) /\
  effects (snd (mremap g addr old_len new_len flags s)) =
    h4 ++ [guard_request g h4 (top_hint g e1)].
Proof.
  intros Hc Hl He Hg. cbv zeta.
  set (map_ptr := g_real_mremap g (effects s) addr old_len new_len flags).
  intros Hok Hnz.
  set (h1 := effects s ++ [EvMremap addr old_len new_len flags map_ptr]).
  set (h2 := h1 ++ [EvMunmap (guard_bottom e) (g_page_size g)
                      (g_real_munmap g h1 (guard_bottom e) (g_page_size g))]).
  set (h3 := h2 ++ [EvMunmap (guard_top e) (g_page_size g)
                      (g_real_munmap g h2 (guard_top e) (g_page_size g))]).
  set (e1 := set_size new_len (set_start map_ptr e)).
  assert (H : exists s',
    mremap g addr old_len new_len flags s = (Ret map_ptr, s') /\
    g_map_cache_vector s' =
      <[p := set_guard_top
               (guard_answer g (h3 ++ [guard_request g h3 (bottom_hint g e1)])
                  (top_hint g e1))
               (set_guard_bottom (guard_answer g h3 (bottom_hint g e1)) e1)]>
        (g_map_cache_vector s) /\
    effects s' =
      (h3 ++ [guard_request g h3 (bottom_hint g e1)]) ++
      [guard_request g (h3 ++ [guard_request g h3 (bottom_hint g e1)])
         (top_hint g e1)]).
  { unfold mremap. unfold bind at 1, real_mremap. rewrite call_real_eq.
    fold map_ptr. fold h1. rewrite Hc.
    set (s1 := {| g_map_cache_vector := g_map_cache_vector s;
                  errno := _; effects := h1 |}).
    unfold bind at 1.
    rewrite (bind_run _ _ _ _ _ (lookup_entry_run addr s1)).
    change (g_map_cache_vector s1) with (g_map_cache_vector s). rewrite Hl.
    assert (He1 : g_map_cache_vector s1 !! p = Some e) by exact He.
    rewrite (bind_run _ _ _ _ _ (load_run _ _ _ He1)).
    assert (Hcond : (negb (guard_bottom e =? 0) || negb (guard_top e =? 0))
                    && negb (map_ptr =? MAP_FAILED) = true).
    { apply andb_true_iff. split.
      - apply orb_true_iff. rewrite !negb_true_iff, !Z.eqb_neq. exact Hg.
      - now rewrite negb_true_iff, Z.eqb_neq. }
    rewrite Hcond.
    unfold bind at 1, real_munmap. rewrite call_real_eq.
    change (effects s1) with h1. fold h2.
    unfold bind at 1. rewrite call_real_eq. cbv beta iota.
    match goal with
    | |- context [EvMunmap (guard_top e) _ (g_real_munmap g ?h _ _)] =>
        change h with h2
    end.
    fold h3.
    unfold bind at 1, modify. cbv beta iota.
    unfold bind at 1. cbv beta iota.
    match goal with
    | |- context [map_guard_pages g p ?st] => set (s4 := st)
    end.
    assert (He4 : g_map_cache_vector s4 !! p = Some e1).
    { unfold s4. simpl.
      now rewrite list_alter_alter_eq, list_lookup_alter_eq, He. }
    assert (V4 : g_map_cache_vector s4 = <[p := e1]> (g_map_cache_vector s)).
    { unfold s4. simpl. rewrite list_alter_alter_eq.
      rewrite (alter_as_insert _ p _ e He). reflexivity. }
    assert (F4 : effects s4 = h3) by reflexivity.
    assert (Hgo : (start e1 =? 0) && negb (size e1 =? 0) = false).
    { simpl. apply Z.eqb_neq in Hnz. now rewrite Hnz. }
    destruct (map_guard_pages_run g p e1 s4 He4 Hgo) as (s5 & E5 & V5 & F5).
    rewrite E5. exists s5. split; [reflexivity|].
    rewrite V5, F5, V4, F4, list_insert_insert_eq.
    split; [reflexivity|]. now rewrite <- app_assoc. }
  destruct H as (s' & -> & V & F). auto.
Qed.

Lemma mremap_moves_record_and_guards_witness :
  let g := kernel_ok policy_guard in
  let s := run g [ReqMmap 0 8192 3 34 (-1) 0] (initial_state 0) in
  g_map_cache_vector (snd (mremap g 1048576 8192 16384 1 s)) =
    [{| start := 1073741824; size := 16384;
        guard_bottom := 1073741824 - 4096;
        guard_top := 1073741824 + 16384; immutable_prot := 3;
        current_prot := 3; cache_index := 0; xom_enabled := 0 |}] /\
  effects (snd (mremap g 1048576 8192 16384 1 s)) =
    effects s ++
    [EvMremap 1048576 8192 16384 1 1073741824;
     EvMunmap 1044480 4096 0; EvMunmap 1056768 4096 0;
     EvMmap (1073741824 - 4096) 4096 PROT_NONE 34 (-1) 0
       (1073741824 - 4096);
     EvMmap (1073741824 + 16384) 4096 PROT_NONE 34 (-1) 0
       (1073741824 + 16384)].
Proof.
  intros g s.
  pose proof (mremap_moves_record_and_guards g 1048576 8192 16384 1 s 0
                guarded_entry eq_refl eq_refl eq_refl
                ltac:(left; discriminate) ltac:(discriminate)
                ltac:(discriminate)) as (V & F).
  split; [exact V | exact F].
Defined.

(** ** A tracked [mmap] *)

Lemma map_guard_pages_skip g p e s :
  g_map_cache_vector s !! p = Some e ->
  (start e =? 0) && negb (size e =? 0) = true ->
  map_guard_pages g p s = (Ret tt, s).
Proof.
  intros He Hgo. unfold map_guard_pages.
  now rewrite (bind_run _ _ _ _ _ (load_run _ _ _ He)), Hgo.
Qed.

Lemma insert_app_last {A} (v : list A) (e e' : A) :
  <[List.length v := e']> (v ++ [e]) = v ++ [e'].
Proof.
  rewrite insert_app_r_alt by lia. now rewrite Nat.sub_diag.
Qed.

Lemma mmap_tracked_run g addr length prot flags offset s :
  use_mapping_cache (g_mapguard_policy g) = true ->
  mmap_allowed g addr prot ->
  let map_ptr :=
    g_real_mmap g (effects s) addr length prot flags (-1) offset in
  map_ptr <> MAP_FAILED ->
  let e0 := fresh_entry map_ptr length prot
              (Z.of_nat (List.length (g_map_cache_vector s))) in
  let h1 := effects s ++ [EvMmap addr length prot flags (-1) offset map_ptr] in
  let h2 := h1 ++ [guard_request g h1 (bottom_hint g e0)] in
  exists s',
    mmap g addr length prot flags (-1) offset s = (Ret map_ptr, s') /\
    g_map_cache_vector s' =
      g_map_cache_vector s ++
      [if guards_placed g map_ptr length
       then set_guard_top (guard_answer g h2 (top_hint g e0))
              (set_guard_bottom (guard_answer g h1 (bottom_hint g e0)) e0)
       else e0] /\
    effects s' =
      h1 ++
      (if guards_placed g map_ptr length
       then [guard_request g h1 (bottom_hint g e0);
             guard_request g h2 (top_hint g e0)]
       else []) ++
      (if poison_on_allocation (g_mapguard_policy g)
          && has_flag prot PROT_WRITE
       then [EvMemset map_ptr MG_POISON_BYTE length] else []).
Proof.
  intros Hc [Hrwx Hst]. cbv zeta.
  set (map_ptr := g_real_mmap g (effects s) addr length prot flags (-1)
                    offset).
  intros Hok.
  set (e0 := fresh_entry map_ptr length prot
               (Z.of_nat (List.length (g_map_cache_vector s)))).
  set (h1 := effects s ++ [EvMmap addr length prot flags (-1) offset map_ptr]).
  unfold mmap. cbv zeta. simpl (negb (-1 =? -1)). cbv iota.
  rewrite Hrwx, Hst.
  unfold bind at 1, real_mmap. rewrite call_real_eq. fold map_ptr. fold h1.
  apply Z.eqb_neq in Hok. rewrite Hok, Hc.
  unfold bind at 1, cache_mapping, vector_push. cbv beta iota zeta.
  simpl (g_map_cache_vector _). rewrite alter_app_last.
  change (set_cache_index _ _) with e0.
  set (s2 := with_vector _ _).
  assert (He2 : g_map_cache_vector s2 !! List.length (g_map_cache_vector s)
                = Some e0).
  { unfold s2. simpl. rewrite lookup_app_r by lia.
    now rewrite Nat.sub_diag. }
  assert (F2 : effects s2 = h1) by reflexivity.
  assert (V2 : g_map_cache_vector s2 = g_map_cache_vector s ++ [e0])
    by reflexivity.
  unfold guards_placed.
  assert (Hpoison : forall st,
    (when (poison_on_allocation (g_mapguard_policy g)
           && has_flag prot PROT_WRITE)
       (memset map_ptr MG_POISON_BYTE length) >> ret map_ptr) st =
    (Ret map_ptr,
     {| g_map_cache_vector := g_map_cache_vector st; errno := errno st;
        effects := effects st ++
          (if poison_on_allocation (g_mapguard_policy g)
              && has_flag prot PROT_WRITE
           then [EvMemset map_ptr MG_POISON_BYTE length] else []) |})).
  { intros st. unfold bind, when, memset.
    destruct (poison_on_allocation _ && _); simpl; [reflexivity|].
    rewrite app_nil_r. now destruct st. }
  destruct (enable_guard_pages (g_mapguard_policy g)); simpl (when _ _).
  - destruct ((map_ptr =? 0) && negb (length =? 0)) eqn:Hgo; simpl (negb _);
      simpl (true && _).
    + rewrite (bind_run _ _ _ _ _
                 (map_guard_pages_skip g _ e0 s2 He2 Hgo)).
      rewrite Hpoison. eexists. split; [reflexivity|]. simpl.
      split; reflexivity.
    + destruct (map_guard_pages_run g _ e0 s2 He2 Hgo)
        as (s3 & E3 & V3 & F3).
      rewrite (bind_run _ _ _ _ _ E3), Hpoison.
      eexists. split; [reflexivity|]. simpl. rewrite V3, F3, V2, F2.
      rewrite insert_app_last. split; [reflexivity|].
      now rewrite <- !app_assoc.
  - rewrite (bind_run (ret tt) _ s2 tt s2 eq_refl), Hpoison.
    eexists. split; [reflexivity|]. simpl. split; reflexivity.
Qed.

(** An anonymous [mmap] that the policy allows and the kernel serves, with
    the cache on: one record is appended to the cache, for the address the
    kernel returned and the length and protection asked for, with the
    index of its slot; then, with guard pages on (and unless the kernel
    returned address 0), the two guard pages are requested and their
    answers stored; then, with poison-on-allocation on and write
    permission, the region is filled with the poison byte.  The records
    that were there are untouched. *)
Theorem mmap_tracks_the_mapping (g : globals)
    (addr length prot flags offset : Z) (s : mg_state) :
  use_mapping_cache (g_mapguard_policy g) = true ->
  mmap_allowed g addr prot ->
  let map_ptr :=
    g_real_mmap g (effects s) addr length prot flags (-1) offset in
  map_ptr <> MAP_FAILED ->
  let e0 := fresh_entry map_ptr length prot
              (Z.of_nat (List.length (g_map_cache_vector s))) in
  let h1 := effects s ++ [EvMmap addr length prot flags (-1) offset map_ptr] in
  let h2 := h1 ++ [guard_request g h1 (bottom_hint g e0)] in
  fst (mmap g addr length prot flags (-1) offset s) = Ret map_ptr /\
  g_map_cache_vector (snd (mmap g addr length prot flags (-1) offset s)) =
    g_map_cache_vector s ++
    [if guards_placed g map_ptr length
     then set_guard_top (guard_answer g h2 (top_hint g e0))
            (set_guard_bottom (guard_answer g h1 (bottom_hint g e0)) e0)
     else e0] /\
  effects (snd (mmap g addr length prot flags (-1) offset s)) =
    h1 ++
    (if guards_placed g map_ptr length
     then [guard_request g h1 (bottom_hint g e0);
           guard_request g h2 (top_hint g e0)]
     else []) ++
    (if poison_on_allocation (g_mapguard_policy g)
        && has_flag prot PROT_WRITE
     then [EvMemset map_ptr MG_POISON_BYTE length] else []).
Proof.
  intros Hc Ha. cbv zeta. intros Hok.
  destruct (mmap_tracked_run g addr length prot flags offset s Hc Ha Hok)
    as (s' & -> & V & F).
  auto.
Qed.

Lemma mmap_tracks_the_mapping_witness :
  let g := kernel_ok policy_guard_poison in
  fst (mmap g 0 8192 3 34 (-1) 0 (initial_state 0)) = Ret 1048576 /\
  g_map_cache_vector (snd (mmap g 0 8192 3 34 (-1) 0 (initial_state 0)))
    = [guarded_entry] /\
  effects (snd (mmap g 0 8192 3 34 (-1) 0 (initial_state 0))) =
    [EvMmap 0 8192 3 34 (-1) 0 1048576;
     EvMmap 1044480 4096 PROT_NONE 34 (-1) 0 1044480;
     EvMmap 1056768 4096 PROT_NONE 34 (-1) 0 1056768;
     EvMemset 1048576 MG_POISON_BYTE 8192].
Proof.
  intros g.
  pose proof (mmap_tracks_the_mapping g 0 8192 3 34 0 (initial_state 0)
                eq_refl (conj eq_refl eq_refl) ltac:(discriminate))
    as (R & V & F).
  split; [exact R|]. split; [exact V | exact F].
Defined.

(** ** Creating, finding and removing *)

Lemma vector_for_each_app_last {A D} (fe : A -> D -> bool) data v e :
  (forall x, x ∈ v -> fe x data = false) -> fe e data = true ->
  vector_for_each fe data (v ++ [e]) = Some (List.length v).
Proof.
  intros Hv He. induction v as [|a v IH]; simpl.
  - now rewrite He.
  - rewrite (Hv a) by constructor. rewrite IH; [reflexivity|].
    intros x Hx. apply Hv. now constructor.
Qed.

Lemma fresh_or_guarded_start g map_ptr length prot idx h1 h2 :
  let e0 := fresh_entry map_ptr length prot idx in
  let e' := if guards_placed g map_ptr length
            then set_guard_top (guard_answer g h2 (top_hint g e0))
                   (set_guard_bottom (guard_answer g h1 (bottom_hint g e0))
                      e0)
            else e0 in
  start e' = map_ptr /\ size e' = length /\ cache_index e' = idx.
Proof. cbv zeta. destruct (guards_placed _ _ _); repeat split. Qed.

Lemma delete_app_last {A} (v : list A) (e : A) :
  delete (List.length v) (v ++ [e]) = v.
Proof. induction v as [|a v IH]; simpl; [reflexivity|]. now rewrite IH. Qed.

Lemma mmap_tracked_lookup g addr length prot flags offset s :
  use_mapping_cache (g_mapguard_policy g) = true ->
  mmap_allowed g addr prot ->
  g_real_mmap g (effects s) addr length prot flags (-1) offset
    <> MAP_FAILED ->
  untracked (g_real_mmap g (effects s) addr length prot flags (-1) offset)
    (g_map_cache_vector s) ->
  exists s' e',
    mmap g addr length prot flags (-1) offset s
      = (Ret (g_real_mmap g (effects s) addr length prot flags (-1) offset),
         s') /\
    g_map_cache_vector s' = g_map_cache_vector s ++ [e'] /\
    start e' = g_real_mmap g (effects s) addr length prot flags (-1) offset /\
    size e' = length /\
    cache_index e' = Z.of_nat (List.length (g_map_cache_vector s)) /\
    vector_for_each is_mapguard_entry_cached
      (g_real_mmap g (effects s) addr length prot flags (-1) offset)
      (g_map_cache_vector s')
    = Some (List.length (g_map_cache_vector s)).
Proof.
  intros Hc Ha Hok Hun.
  destruct (mmap_tracked_run g addr length prot flags offset s Hc Ha Hok)
    as (s' & E & V & _).
  match type of V with
  | _ = _ ++ [if _ then set_guard_top (guard_answer g ?h2 _)
                          (set_guard_bottom (guard_answer g ?h1 _) _)
              else _] =>
      destruct (fresh_or_guarded_start g
                  (g_real_mmap g (effects s) addr length prot flags (-1)
                     offset)
                  length prot
                  (Z.of_nat (List.length (g_map_cache_vector s))) h1 h2)
        as (T1 & T2 & T3)
  end.
  eexists s', _. split; [exact E|]. split; [exact V|].
  split; [exact T1|]. split; [exact T2|]. split; [exact T3|].
  rewrite V. apply vector_for_each_app_last; [exact Hun|].
  unfold is_mapguard_entry_cached. rewrite T1. now rewrite Z.eqb_refl.
Qed.

(** After a tracked [mmap], the lookup by the address [mmap] returned
    finds the new record, in the last slot, provided no record tracked
    before covers that address. *)
Theorem mmap_then_lookup_finds_it (g : globals)
    (addr length prot flags offset : Z) (s : mg_state) :
  use_mapping_cache (g_mapguard_policy g) = true ->
  mmap_allowed g addr prot ->
  let map_ptr :=
    g_real_mmap g (effects s) addr length prot flags (-1) offset in
  map_ptr <> MAP_FAILED ->
  untracked map_ptr (g_map_cache_vector s) ->
  vector_for_each is_mapguard_entry_cached map_ptr
    (g_map_cache_vector (snd (mmap g addr length prot flags (-1) offset s)))
  = Some (List.length (g_map_cache_vector s)).
Proof.
  intros Hc Ha. cbv zeta. intros Hok Hun.
  destruct (mmap_tracked_lookup g addr length prot flags offset s
              Hc Ha Hok Hun) as (s' & e' & -> & _ & _ & _ & _ & Hl).
  exact Hl.
Qed.

Lemma mmap_then_lookup_finds_it_witness :
  let g := kernel_ok policy_guard in
  let s := run g [ReqMmap 0 8192 3 34 (-1) 0] (initial_state 0) in
  vector_for_each is_mapguard_entry_cached 4194304
    (g_map_cache_vector (snd (mmap g 0 4096 1 34 (-1) 0 s)))
  = Some 1%nat.
Proof.
  intros g s.
  apply (mmap_then_lookup_finds_it g 0 4096 1 34 0 s eq_refl
           (conj eq_refl eq_refl));
    [discriminate|].
  intros e He. vm_compute in He.
  apply list_elem_of_singleton in He. now subst.
Defined.

(** A tracked [mmap] followed by the [munmap] of what it returned, with
    the same length, leaves the cache as it was before the [mmap],
    whatever the real [munmap] answers, guard pages or not, provided no
    record tracked before covers the new address. *)
Theorem mmap_then_munmap_restores_cache (g : globals)
    (addr length prot flags offset : Z) (s : mg_state) :
  use_mapping_cache (g_mapguard_policy g) = true ->
  mmap_allowed g addr prot ->
  let map_ptr :=
    g_real_mmap g (effects s) addr length prot flags (-1) offset in
  map_ptr <> MAP_FAILED ->
  untracked map_ptr (g_map_cache_vector s) ->
  g_map_cache_vector
    (snd (munmap g map_ptr length
            (snd (mmap g addr length prot flags (-1) offset s))))
  = g_map_cache_vector s.
Proof.
  intros Hc Ha. cbv zeta. intros Hok Hun.
  destruct (mmap_tracked_lookup g addr length prot flags offset s
              Hc Ha Hok Hun) as (s' & e' & -> & V & T1 & T2 & T3 & Hl).
  simpl.
  assert (He' : g_map_cache_vector s'
                !! List.length (g_map_cache_vector s) = Some e').
  { rewrite V, lookup_app_r by lia. now rewrite Nat.sub_diag. }
  destruct (munmap_exact_synced g _ length s' _ e' Hc Hl He' T1 T2 T3)
    as (h & r & s'' & _ & _ & -> & Hv & _).
  simpl. rewrite Hv, V. apply delete_app_last.
Qed.

Lemma mmap_then_munmap_restores_cache_witness :
  let g := kernel_no_munmap policy_guard in
  let s := run g [ReqMmap 0 8192 3 34 (-1) 0] (initial_state 0) in
  g_map_cache_vector
    (snd (munmap g 4194304 4096 (snd (mmap g 0 4096 1 34 (-1) 0 s))))
  = g_map_cache_vector s.
Proof.
  intros g s.
  apply (mmap_then_munmap_restores_cache g 0 4096 1 34 0 s eq_refl
           (conj eq_refl eq_refl));
    [discriminate|].
  intros e He. vm_compute in He.
  apply list_elem_of_singleton in He. now subst.
Defined.

(** ** Invariants along sequences of hooks *)

(** Every hook call but an exact-match [munmap] keeps [cache_index] in
    step with the slots: [mmap] writes the index of the slot it fills,
    and [mprotect], [mremap] and the partial [munmap] write other fields
    of a record in its place. *)
Theorem only_exact_munmap_moves_records (g : globals) (r : request)
    (s : mg_state) :
  index_synced (g_map_cache_vector s) ->
  ~ exact_munmap g r s ->
  index_synced (g_map_cache_vector (snd (serve g r s))).
Proof.
  intros Hs Hne. destruct r as [addr length prot flags fd offset
                               | addr length | addr len prot
                               | addr old_len new_len flags]; simpl.
  - now apply mmap_keeps_index_sync.
  - unfold munmap.
    destruct (use_mapping_cache (g_mapguard_policy g)) eqn:Hc; [|exact Hs].
    rewrite (bind_run _ _ _ _ _ (lookup_entry_run addr s)).
    destruct (vector_for_each _ _ _) as [p|] eqn:Hl; [|exact Hs].
    destruct (vector_for_each_Some _ _ _ _ Hl) as (e & He & _).
    rewrite (bind_run _ _ _ _ _ (load_run _ _ _ He)).
    destruct (negb (start e =? addr) || negb (size e =? length)) eqn:Hpart.
    + match goal with
      | |- index_synced (g_map_cache_vector (snd (?T s))) =>
          assert (HT : stable index_kept T)
      end.
      { unfold unmap_top_guard_page, unmap_bottom_guard_page,
          map_top_guard_page, map_bottom_guard_page, map_guard_page,
          real_munmap, real_mmap.
        stable_steps; apply stable_modify; intros ?;
          apply index_kept_alter; intros ?; reflexivity. }
      now apply HT.
    + exfalso. apply Hne. exists addr, length, p, e.
      apply orb_false_iff in Hpart as [H1 H2].
      rewrite negb_false_iff, Z.eqb_eq in H1, H2. auto 10.
  - now apply mprotect_keeps_index_sync.
  - now apply mremap_keeps_index_sync.
Qed.

Lemma only_exact_munmap_moves_records_witness :
  let g := kernel_ok policy_guard in
  let s := run g [ReqMmap 0 8192 3 34 (-1) 0; ReqMmap 0 8192 3 34 (-1) 0]
             (initial_state 0) in
  index_synced
    (g_map_cache_vector (snd (serve g (ReqMunmap 1048576 4096) s))).
Proof.
  intros g s.
  apply (only_exact_munmap_moves_records g (ReqMunmap 1048576 4096) s).
  - intros [|[|p]] e; vm_compute; intros [=<-]; reflexivity.
  - intros (addr & length & p & e & [= <- <-] & _ & Hl & He & _ & Hz).
    vm_compute in Hl. injection Hl as <-. vm_compute in He.
    injection He as <-. discriminate Hz.
Defined.

Lemma prot_inv_every_hook_witness :
  let g := kernel_ok policy_guard in
  prot_inv
    (g_map_cache_vector
       (run g [ReqMmap 0 8192 3 34 (-1) 0; ReqMprotect 1048576 8192 1;
               ReqMremap 1048576 8192 16384 1; ReqMmap 0 4096 1 34 (-1) 0;
               ReqMunmap 1073741824 4096]
          (initial_state 0))).
Proof.
  intros g. apply (prot_inv_every_hook g). constructor.
Defined.

Lemma munmap_exact_breaks_index_sync_witness :
  let g := kernel_ok policy_cache in
  let s := run g [ReqMmap 0 4096 3 34 (-1) 0; ReqMmap 0 4096 3 34 (-1) 0;
                  ReqMmap 0 4096 3 34 (-1) 0] (initial_state 0) in
  ~ index_synced (g_map_cache_vector (snd (munmap g 2097152 4096 s))).
Proof.
  intros g s.
  apply (munmap_exact_breaks_index_sync g 2097152 4096 s 1
           (entry_at 2097152 1)); try reflexivity.
  - intros [|[|[|p]]] e; vm_compute; intros [=<-]; reflexivity.
  - vm_compute. lia.
Defined.

(** An exact-match [munmap] of a record whose [cache_index] is its slot:
    the guard pages the record holds are unmapped, bottom first, the
    record leaves the cache, which closes up, and the real [munmap] is
    called last and its result returned; afterwards an address that no
    other record covers is not found. *)
Theorem munmap_exact_removes_record (g : globals) (addr length : Z)
    (s : mg_state) (p : nat) (e : mapguard_cache_entry_t) :
  use_mapping_cache (g_mapguard_policy g) = true ->
  vector_for_each is_mapguard_entry_cached addr (g_map_cache_vector s)
    = Some p ->
  g_map_cache_vector s !! p = Some e ->
  start e = addr -> size e = length ->
  cache_index e = Z.of_nat p ->
  let h1 := effects s ++ guard_unmap g (effects s) (guard_bottom e) in
  let h2 := h1 ++ guard_unmap g h1 (guard_top e) in
  let r := g_real_munmap g h2 addr length in
  fst (munmap g addr length s) = Ret r /\
  g_map_cache_vector (snd (munmap g addr length s))
    = delete p (g_map_cache_vector s) /\
  effects (snd (munmap g addr length s)) = h2 ++ [EvMunmap addr length r] /\
  forall a,
    (forall q e', g_map_cache_vector s !! q = Some e' -> q <> p ->
                  is_mapguard_entry_cached e' a = false) ->
    vector_for_each is_mapguard_entry_cached a
      (g_map_cache_vector (snd (munmap g addr length s))) = None.
Proof.
  intros Hc Hl He Hs Hz Hi. cbv zeta.
  destruct (munmap_exact_synced g addr length s p e Hc Hl He Hs Hz Hi)
    as (h & r & s' & -> & -> & -> & Hv & Hf).
  simpl. repeat split; auto.
  intros a Ha. rewrite Hv. now apply lookup_after_delete.
Qed.

Lemma munmap_exact_removes_record_witness :
  let g := kernel_ok policy_guard in
  let s := run g [ReqMmap 0 8192 3 34 (-1) 0] (initial_state 0) in
  fst (munmap g 1048576 8192 s) = Ret 0 /\
  g_map_cache_vector (snd (munmap g 1048576 8192 s)) = [] /\
  effects (snd (munmap g 1048576 8192 s)) =
    effects s ++ [EvMunmap 1044480 4096 0; EvMunmap 1056768 4096 0;
                  EvMunmap 1048576 8192 0].
Proof.
  intros g s.
  pose proof (munmap_exact_removes_record g 1048576 8192 s 0 guarded_entry
                eq_refl eq_refl eq_refl eq_refl eq_refl eq_refl)
    as (R & V & F & _).
  split; [exact R|]. split; [exact V | exact F].
Defined.
